(** * Videoteka-UP: the browser client (app.js)

    A shallow embedding of the client script of the Videoteka storefront and
    the properties of its request gateway, its session forms, its cart and
    bookmark stores, its sort pipeline and its image resolution.

    Conventions of the embedding.
    - JavaScript values are the inductive type [value]; numbers carry the exact
      rational value of the double they stand for ([Fin q]), or one of
      [NaN], [PosInf], [NegInf]. The program only ever looks at the sign of
      a difference of two numbers, and the sign of a difference of two doubles
      is the sign of the exact difference, so no rounding is modelled.
    - A [string] holds the UTF-8 encoding of a JavaScript string. Equality
      and prefixes are the same on the bytes and on the code units; the
      comparison [<] is not, and is made on the UTF-16 code units, see
      [code_units] and [string_ltb].
    - Built-in functions whose full definition belongs to the engine
      ([Number::toString], [String.prototype.toLowerCase],
      [String.prototype.trim], [parseFloat], [JSON.parse], [JSON.stringify])
      and the environment of the page (its location, the network, the
      document's selector engine) are variables of the section [Client]:
      every theorem holds for whatever they compute. The module [Ref] gives
      one executable instance, used in the closed examples.
    - A property read [o[k]] on an object follows the prototype chain to
      [Object.prototype], see [obj_get].
    - Exceptions are the [Throw] case of [result]; an [error] carries the
      [message] of the thrown Error object.
    - An asynchronous function is run to completion: nothing else touches
      the page while its request is pending. [localStorage.setItem] always
      succeeds. *)

From Stdlib Require Import ZArith QArith Qcanon String Ascii List DecimalString.
From Stdlib Require Import Sorting.Sorted Sorting.Permutation.
From stdpp Require Import gmap strings list.

#[global] Set Default Proof Using "Type".

(** * JavaScript values *)

#[local] Set Warnings "-register-all".

Inductive number : Type :=
| NaN
| NegInf
| Fin (q : Qc)
| PosInf.

Inductive value : Type :=
| VUndefined
| VNull
| VBool (b : bool)
| VNum (n : number)
| VStr (s : string)
| VArr (items : list value)
| VObj (props : list (string * value))
| VNative (name : string).

(** An object literal or a parsed JSON object: its own properties, in
    insertion order. *)
Definition object : Type := list (string * value).

Definition num_is_zero (n : number) : bool :=
  match n with
  | Fin q => match (q ?= 0)%Qc with Eq => true | _ => false end
  | _ => false
  end.

Definition num_is_nan (n : number) : bool :=
  match n with NaN => true | _ => false end.

(** ToBoolean. *)
Definition truthy (v : value) : bool :=
  match v with
  | VUndefined | VNull => false
  | VBool b => b
  | VNum n => negb (num_is_nan n || num_is_zero n)
  | VStr s => negb (String.eqb s "")
  | VArr _ | VObj _ | VNative _ => true
  end.

(** [a || b], [a && b] and [a ?? b] on values that are already computed. *)
Definition js_or (a b : value) : value := if truthy a then a else b.
Definition js_and (a b : value) : value := if truthy a then b else a.
Definition nullish (a b : value) : value :=
  match a with VUndefined | VNull => b | _ => a end.

Definition is_string (v : value) : bool :=
  match v with VStr _ => true | _ => false end.

(** ** Strings

    JavaScript compares two strings code unit by code unit. That is not the
    order of the bytes of their UTF-8 encodings: a character outside the
    Basic Multilingual Plane is a pair of surrogates (0xD800..0xDFFF) and so
    comes before the characters U+E000..U+FFFF. *)

(** The payload of a continuation byte. *)
Definition continuation (b : ascii) : option N :=
  let n := N_of_ascii b in
  if ((128 <=? n) && (n <? 192))%N then Some (n - 128)%N else None.

(** The code units of a code point. *)
Definition utf16_encode (cp : N) : list N :=
  if (cp <? 65536)%N then [cp]
  else [55296 + (cp - 65536) / 1024; 56320 + (cp - 65536) mod 1024]%N.

(** The UTF-16 code units of the string that a [string] encodes. A byte that
    does not start a well-formed sequence stands for itself. *)
Fixpoint code_units (s : string) : list N :=
  match s with
  | EmptyString => []
  | String b0 r0 =>
      let n0 := N_of_ascii b0 in
      let single := n0 :: code_units r0 in
      if (n0 <? 192)%N then single
      else
        match r0 with
        | EmptyString => single
        | String b1 r1 =>
            match continuation b1 with
            | None => single
            | Some n1 =>
                if (n0 <? 224)%N then
                  ((n0 - 192) * 64 + n1)%N :: code_units r1
                else
                  match r1 with
                  | EmptyString => single
                  | String b2 r2 =>
                      match continuation b2 with
                      | None => single
                      | Some n2 =>
                          if (n0 <? 240)%N then
                            ((n0 - 224) * 4096 + n1 * 64 + n2)%N
                            :: code_units r2
                          else
                            match r2 with
                            | EmptyString => single
                            | String b3 r3 =>
                                match continuation b3 with
                                | None => single
                                | Some n3 =>
                                    utf16_encode
                                      ((n0 - 240) * 262144 + n1 * 4096
                                       + n2 * 64 + n3)%N
                                    ++ code_units r3
                                end
                            end
                      end
                  end
            end
        end
  end.

(** [u < v] on sequences of code units: the first position where they differ
    decides; a proper prefix is smaller. *)
Fixpoint units_ltb (u v : list N) : bool :=
  match u, v with
  | _, [] => false
  | [], _ :: _ => true
  | x :: u', y :: v' =>
      if (x <? y)%N then true
      else if (y <? x)%N then false
      else units_ltb u' v'
  end.

(** [a < b] on strings. *)
Definition string_ltb (a b : string) : bool :=
  units_ltb (code_units a) (code_units b).

(** The members every object inherits from [Object.prototype]. *)
Definition object_prototype_names : list string :=
  [ "constructor"; "hasOwnProperty"; "isPrototypeOf"; "propertyIsEnumerable";
    "toLocaleString"; "toString"; "valueOf";
    "__defineGetter__"; "__defineSetter__"; "__lookupGetter__";
    "__lookupSetter__" ].

Definition inherited (k : string) : option value :=
  if String.eqb k "__proto__" then Some (VObj [])
  else if existsb (String.eqb k) object_prototype_names then Some (VNative k)
  else None.

Fixpoint own_get (o : object) (k : string) : option value :=
  match o with
  | [] => None
  | (k', v) :: rest => if String.eqb k' k then Some v else own_get rest k
  end.

(** [o[k]] for an ordinary object [o]: the own property, else the member
    inherited from [Object.prototype], else [undefined]. *)
Definition obj_get (o : object) (k : string) : value :=
  match own_get o k with
  | Some v => v
  | None => match inherited k with Some v => v | None => VUndefined end
  end.

(** [v.k] for a value that is not [null] or [undefined] (every such read in
    the program is guarded). Only the keys [detail], [message],
    [access_token], [movie_id], [title], [author] and [price] are read this
    way; no built-in prototype defines them, so primitives and arrays answer
    from [Object.prototype] alone. *)
Definition prop (v : value) (k : string) : value :=
  match v with
  | VObj o => obj_get o k
  | _ => match inherited k with Some x => x | None => VUndefined end
  end.

(** * Results and errors *)

Record error : Type := Error { message : string }.

Inductive result (A : Type) : Type :=
| Return (a : A)
| Throw (e : error).
Arguments Return {A} a.
Arguments Throw {A} e.

(** * The environment of the page *)

Record Location : Type := { protocol : string; origin : string }.

(** What [fetch] is called with, and what it answers: the promise (or that
    of [res.text()]) rejects, or resolves to a response with its [ok] flag
    and its body text. *)
Record request : Type := Request {
  url : string;
  req_method : option string;
  req_body : option string;
  req_headers : gmap string string
}.

Inductive fetch_result : Type :=
| Rejected (e : error)
| Response (ok : bool) (text : string).

(** The second argument of [apiRequest]. *)
Record options : Type := Options {
  method : option string;
  body : option string;
  headers : option (gmap string string)
}.

Definition no_options : options := Options None None None.

(** [document.querySelector]: a syntax error for a malformed selector, else
    the first matching element (a handle), if any. *)
Inductive query_result : Type :=
| SyntaxError (e : error)
| NoMatch
| Match (element : nat).

(** * Session forms: the document as [showForm] sees it *)

(** An element: its id ([None] when it has none, or an empty one) and its
    classes. The document is the list of its elements in document order. *)
Record element : Type := Element {
  el_id : option string;
  classList : list string
}.

Definition contains (cls : string) (e : element) : bool :=
  existsb (String.eqb cls) (classList e).

Definition classList_remove (cls : string) (e : element) : element :=
  Element (el_id e) (filter (λ c, c ≠ cls) (classList e)).

Definition classList_add (cls : string) (e : element) : element :=
  if contains cls e then e else Element (el_id e) (classList e ++ [cls]).

(** [document.getElementById]: the index of the first element with that id. *)
Fixpoint getElementById (formId : string) (doc : list element) : option nat :=
  match doc with
  | [] => None
  | e :: rest =>
      if bool_decide (el_id e = Some formId) then Some 0
      else S <$> getElementById formId rest
  end.

(** The callback [showForm] runs on every [.form] element. *)
Definition deactivate (form : element) : element :=
  if contains "form" form then
    if contains "active" form then classList_remove "active" form else form
  else form.

Definition showForm (formId : string) (doc : list element) : list element :=
  let doc1 := deactivate <$> doc in
  match getElementById formId doc1 with
  | Some target => alter (classList_add "active") target doc1
  | None => doc1
  end.

(** * A reference engine

    One executable instance of the built-ins the client script relies on,
    for the closed examples at the end of the file. It covers text whose
    letters are ASCII, decimal literals, and JSON without [\u] escapes;
    numbers are printed in positional notation. No theorem about the script
    depends on it. *)

Module Ref.

Definition dq : ascii := ascii_of_nat 34.
Definition backslash : ascii := ascii_of_nat 92.

Definition is_space (c : ascii) : bool :=
  let n := nat_of_ascii c in
  (Nat.eqb n 32) || ((9 <=? n) && (n <=? 13)).

Definition is_digit (c : ascii) : bool :=
  let n := nat_of_ascii c in (48 <=? n) && (n <=? 57).

Definition lower_char (c : ascii) : ascii :=
  let n := nat_of_ascii c in
  if (65 <=? n) && (n <=? 90) then ascii_of_nat (n + 32) else c.

Fixpoint toLowerCase (s : string) : string :=
  match s with
  | EmptyString => EmptyString
  | String c rest => String (lower_char c) (toLowerCase rest)
  end.

Fixpoint skip_spaces (s : string) : string :=
  match s with
  | String c rest => if is_space c then skip_spaces rest else s
  | EmptyString => EmptyString
  end.

Definition trim (s : string) : string :=
  String.rev (skip_spaces (String.rev (skip_spaces s))).

(** *** Numbers *)

Fixpoint take_digits (s : string) : string * string :=
  match s with
  | String c rest =>
      if is_digit c then
        let '(ds, r) := take_digits rest in (String c ds, r)
      else (EmptyString, s)
  | EmptyString => (EmptyString, EmptyString)
  end.

Fixpoint digits_value (acc : Z) (ds : string) : Z :=
  match ds with
  | EmptyString => acc
  | String c rest => digits_value (acc * 10 + Z.of_nat (nat_of_ascii c - 48)) rest
  end.

(** The number [m * 10^e]. *)
Definition decimal (m e : Z) : number :=
  if (0 <=? e)%Z then Fin (Q2Qc (inject_Z (m * 10 ^ e)))
  else Fin (Q2Qc (Qmake m (Z.to_pos (10 ^ (- e))))).

Definition num_neg (n : number) : number :=
  match n with
  | NaN => NaN
  | PosInf => NegInf
  | NegInf => PosInf
  | Fin q => Fin (- q)
  end.

(** An exponent part [e], [e+] or [e-] followed by digits; when there is
    none, the exponent is 0 and nothing is consumed. *)
Definition scan_exponent (s : string) : Z * string :=
  match s with
  | String c r =>
      if Ascii.eqb c "e" || Ascii.eqb c "E" then
        let '(neg, r1) :=
          match r with
          | String "+" r' => (false, r')
          | String "-" r' => (true, r')
          | _ => (false, r)
          end in
        let '(ds, r2) := take_digits r1 in
        if String.eqb ds "" then (0%Z, s)
        else ((if neg then - digits_value 0 ds else digits_value 0 ds)%Z, r2)
      else (0%Z, s)
  | EmptyString => (0%Z, s)
  end.

(** Digits, an optional fraction, an optional exponent: the integer digits,
    whether a point was read, the fraction digits, the exponent and the
    rest of the text. *)
Definition scan_decimal (s : string)
  : string * bool * string * Z * string :=
  let '(ip, r1) := take_digits s in
  let '(dot, fp, r2) :=
    match r1 with
    | String "." r => let '(fp, r') := take_digits r in (true, fp, r')
    | _ => (false, EmptyString, r1)
    end in
  let '(e, r3) := scan_exponent r2 in
  (ip, dot, fp, e, r3).

Definition scanned_number (ip fp : string) (e : Z) : number :=
  decimal (digits_value 0 (ip +:+ fp)) (e - Z.of_nat (String.length fp)).

Definition parseFloat_string (s : string) : number :=
  let s := skip_spaces s in
  let '(neg, s) :=
    match s with
    | String "+" r => (false, r)
    | String "-" r => (true, r)
    | _ => (false, s)
    end in
  let unsigned :=
    if String.prefix "Infinity" s then PosInf
    else
      let '(ip, dot, fp, e, _) := scan_decimal s in
      if String.eqb ip "" && String.eqb fp "" then NaN
      else scanned_number ip fp e in
  if neg then num_neg unsigned else unsigned.

Definition digit_char (d : Z) : ascii := ascii_of_nat (48 + Z.to_nat d).

Definition print_Z (z : Z) : string := NilZero.string_of_int (Z.to_int z).

Fixpoint fraction_digits (fuel : nat) (r d : Z) : string :=
  match fuel with
  | O => EmptyString
  | S fuel' =>
      if (r =? 0)%Z then EmptyString
      else String (digit_char (r * 10 / d)) (fraction_digits fuel' (r * 10 mod d) d)
  end.

Definition Number_toString (n : number) : string :=
  match n with
  | NaN => "NaN"
  | PosInf => "Infinity"
  | NegInf => "-Infinity"
  | Fin q =>
      let num := Qnum q in
      let den := Zpos (Qden q) in
      let a := Z.abs num in
      (if (num <? 0)%Z then "-" else "") +:+ print_Z (a / den) +:+
      (if (a mod den =? 0)%Z then ""
       else "." +:+ fraction_digits 20 (a mod den) den)
  end.

(** *** JSON *)

Definition hex_char (n : nat) : ascii :=
  if n <? 10 then ascii_of_nat (48 + n) else ascii_of_nat (87 + n).

Definition escape_char (c : ascii) : string :=
  let n := nat_of_ascii c in
  if Ascii.eqb c dq then String backslash (String dq EmptyString)
  else if Ascii.eqb c backslash then String backslash (String backslash EmptyString)
  else if Nat.eqb n 8 then String backslash "b"
  else if Nat.eqb n 9 then String backslash "t"
  else if Nat.eqb n 10 then String backslash "n"
  else if Nat.eqb n 12 then String backslash "f"
  else if Nat.eqb n 13 then String backslash "r"
  else if n <? 32 then
    String backslash
      ("u00" +:+ String (hex_char (n / 16))
                   (String (hex_char (n mod 16)) EmptyString))
  else String c EmptyString.

Fixpoint escape (s : string) : string :=
  match s with
  | EmptyString => EmptyString
  | String c rest => escape_char c +:+ escape rest
  end.

Definition quote (s : string) : string :=
  String dq (escape s +:+ String dq EmptyString).

(** [None] is the [undefined] that [JSON.stringify] answers for [undefined]
    and for functions. *)
Fixpoint stringify (v : value) : option string :=
  match v with
  | VUndefined | VNative _ => None
  | VNull => Some "null"
  | VBool true => Some "true"
  | VBool false => Some "false"
  | VNum (Fin q) => Some (Number_toString (Fin q))
  | VNum _ => Some "null"
  | VStr s => Some (quote s)
  | VArr items =>
      Some ("[" +:+
        (fix elements (l : list value) : string :=
           match l with
           | [] => ""
           | x :: rest =>
               default "null" (stringify x) +:+
               match rest with [] => "" | _ => "," +:+ elements rest end
           end) items +:+ "]")
  | VObj props =>
      Some ("{" +:+
        (fix members (first : bool) (l : list (string * value)) : string :=
           match l with
           | [] => ""
           | (k, x) :: rest =>
               match stringify x with
               | None => members first rest
               | Some sx =>
                   (if first then "" else ",") +:+ quote k +:+ ":" +:+ sx +:+
                   members false rest
               end
           end) true props +:+ "}")
  end.

Definition JSON_stringify (v : value) : string :=
  default "undefined" (stringify v).

(** The characters of a string literal after its opening quote, up to the
    closing one. *)
Fixpoint parse_string (s : string) : option (string * string) :=
  match s with
  | EmptyString => None
  | String c rest =>
      if Ascii.eqb c dq then Some (EmptyString, rest)
      else if Ascii.eqb c backslash then
        match rest with
        | String e rest' =>
            let unescaped :=
              if Ascii.eqb e dq then Some dq
              else if Ascii.eqb e backslash then Some backslash
              else if Ascii.eqb e "/" then Some "/"%char
              else if Ascii.eqb e "b" then Some (ascii_of_nat 8)
              else if Ascii.eqb e "t" then Some (ascii_of_nat 9)
              else if Ascii.eqb e "n" then Some (ascii_of_nat 10)
              else if Ascii.eqb e "f" then Some (ascii_of_nat 12)
              else if Ascii.eqb e "r" then Some (ascii_of_nat 13)
              else None in
            match unescaped, parse_string rest' with
            | Some u, Some (str, r) => Some (String u str, r)
            | _, _ => None
            end
        | EmptyString => None
        end
      else if nat_of_ascii c <? 32 then None
      else
        match parse_string rest with
        | Some (str, r) => Some (String c str, r)
        | None => None
        end
  end.

Definition parse_number (s : string) : option (value * string) :=
  let '(neg, s1) :=
    match s with
    | String "-" r => (true, r)
    | _ => (false, s)
    end in
  let '(ip, dot, fp, e, rest) := scan_decimal s1 in
  let leading_zero :=
    match ip with
    | String "0" (String _ _) => true
    | _ => false
    end in
  if String.eqb ip "" || leading_zero || (dot && String.eqb fp "") then None
  else
    let n := scanned_number ip fp e in
    Some (VNum (if neg then num_neg n else n), rest).

Definition strip_prefix (p s : string) : option string :=
  if String.prefix p s then
    Some (String.substring (String.length p) (String.length s - String.length p) s)
  else None.

Fixpoint parse_value (fuel : nat) (s : string) : option (value * string) :=
  match fuel with
  | O => None
  | S fuel' =>
      match skip_spaces s with
      | EmptyString => None
      | String c rest as s' =>
          if Ascii.eqb c dq then
            '(str, r) ← parse_string rest; Some (VStr str, r)
          else if Ascii.eqb c "[" then
            match skip_spaces rest with
            | String "]" r => Some (VArr [], r)
            | _ => '(items, r) ← parse_elements fuel' rest; Some (VArr items, r)
            end
          else if Ascii.eqb c "{" then
            match skip_spaces rest with
            | String "}" r => Some (VObj [], r)
            | _ => '(props, r) ← parse_members fuel' rest; Some (VObj props, r)
            end
          else if Ascii.eqb c "t" then
            r ← strip_prefix "true" s'; Some (VBool true, r)
          else if Ascii.eqb c "f" then
            r ← strip_prefix "false" s'; Some (VBool false, r)
          else if Ascii.eqb c "n" then
            r ← strip_prefix "null" s'; Some (VNull, r)
          else parse_number s'
      end
  end
with parse_elements (fuel : nat) (s : string) : option (list value * string) :=
  match fuel with
  | O => None
  | S fuel' =>
      '(x, r) ← parse_value fuel' s;
      match skip_spaces r with
      | String "," r' => '(xs, r'') ← parse_elements fuel' r'; Some (x :: xs, r'')
      | String "]" r' => Some ([x], r')
      | _ => None
      end
  end
with parse_members (fuel : nat) (s : string)
  : option (list (string * value) * string) :=
  match fuel with
  | O => None
  | S fuel' =>
      match skip_spaces s with
      | String c r0 =>
          if Ascii.eqb c dq then
            '(k, r1) ← parse_string r0;
            match skip_spaces r1 with
            | String ":" r2 =>
                '(x, r3) ← parse_value fuel' r2;
                match skip_spaces r3 with
                | String "," r4 =>
                    '(ms, r5) ← parse_members fuel' r4; Some ((k, x) :: ms, r5)
                | String "}" r4 => Some ([(k, x)], r4)
                | _ => None
                end
            | _ => None
            end
          else None
      | EmptyString => None
      end
  end.

Definition JSON_parse (text : string) : option value :=
  '(v, rest) ← parse_value (S (String.length text)) text;
  match skip_spaces rest with
  | EmptyString => Some v
  | _ => None
  end.

(** [encodeURIComponent]: the unreserved characters are kept and every other
    byte of the UTF-8 encoding is written as a percent sign and two
    hexadecimal digits. On these strings, which are UTF-8 texts, no lone
    surrogate can occur and the function does not throw. *)
Definition unreserved (c : ascii) : bool :=
  let n := nat_of_ascii c in
  ((65 <=? n) && (n <=? 90) || (97 <=? n) && (n <=? 122)
   || (48 <=? n) && (n <=? 57))%nat
  || existsb (Ascii.eqb c) (list_ascii_of_string "-_.!~*'()").

Definition upper_hex (n : nat) : ascii :=
  if (n <? 10)%nat then ascii_of_nat (48 + n) else ascii_of_nat (55 + n).

Fixpoint percent_encode (s : string) : string :=
  match s with
  | EmptyString => EmptyString
  | String c rest =>
      if unreserved c then String c (percent_encode rest)
      else String "%" (String (upper_hex (nat_of_ascii c / 16))
                         (String (upper_hex (nat_of_ascii c mod 16))
                            (percent_encode rest)))
  end.

Definition encodeURIComponent (s : string) : result string :=
  Return (percent_encode s).

End Ref.

(** * The client script *)

Section Client.

(** ** Built-ins of the engine *)

(** [Number::toString], [String.prototype.toLowerCase] and
    [String.prototype.trim]. *)
Variable Number_toString : number → string.
Variable toLowerCase : string → string.
Variable trim : string → string.
(** [parseFloat] on a string: the number its longest numeric prefix denotes,
    [NaN] when there is none. *)
Variable parseFloat_string : string → number.
(** [JSON.parse]: [None] when it throws a SyntaxError. *)
Variable JSON_parse : string → option value.
Variable JSON_stringify : value → string.
(** The messages of the TypeErrors raised by an assignment to a property of
    [null], by a read of a property of [null] or [undefined], and by a call
    of a method that the receiver does not have. *)
Variable null_property_message : string.
Variable null_read_message : string.
Variable not_a_function_message : string.

(** ** The page *)

(** The address of the page, the network (what [fetch] answers to each
    request) and the document's [querySelector]. *)
Variable location : Location.
Variable fetch : request → fetch_result.
Variable querySelector : string → query_result.

(** The name of the function that is the member [member] of
    [Object.prototype]: the member's own name, but [Object] for
    [constructor]. *)
Definition native_name (member : string) : string :=
  if String.eqb member "constructor" then "Object" else member.

(** ToString, as applied by [String(v)] and by template literals. An object
    is taken to have no own [toString]: the conversion of one that has (the
    server's JSON cannot make it callable) throws. *)
Fixpoint ToString (v : value) : string :=
  match v with
  | VUndefined => "undefined"
  | VNull => "null"
  | VBool true => "true"
  | VBool false => "false"
  | VNum n => Number_toString n
  | VStr s => s
  | VArr items =>
      (fix join (l : list value) : string :=
         match l with
         | [] => ""
         | x :: rest =>
             let sx := match x with
                       | VUndefined | VNull => ""
                       | _ => ToString x
                       end in
             match rest with
             | [] => sx
             | _ => sx +:+ "," +:+ join rest
             end
         end) items
  | VObj _ => "[object Object]"
  | VNative name => "function " +:+ native_name name +:+ "() { [native code] }"
  end.

(** [parseFloat(v)]: the argument is converted to a string first. *)
Definition parseFloat (v : value) : number := parseFloat_string (ToString v).

(** ** The request gateway *)

Definition API_BASE : string :=
  if String.eqb (protocol location) "file:" then "http://localhost:8000/api/v1"
  else origin location +:+ "/api/v1".

(** The [headers] object handed to [fetch]. Header names are its property
    keys, compared exactly. [localStorage.getItem(k)] is [storage !! k];
    [null] is [None]. *)
Definition request_headers (storage : gmap string string) (opts : options)
  : gmap string string :=
  (* Object.assign({ 'Content-Type': 'application/json' }, options.headers || {}) *)
  let headers0 :=
    default ∅ (headers opts) ∪ {[ "Content-Type" := "application/json" ]} in
  match storage !! "token" with
  | Some token =>
      if String.eqb token "" then headers0
      else <[ "Authorization" := "Bearer " +:+ token ]> headers0
  | None => headers0
  end.

Definition build_request (storage : gmap string string) (path : string)
  (opts : options) : request :=
  Request (API_BASE +:+ path) (method opts) (body opts)
          (request_headers storage opts).

(** [try { data = text ? JSON.parse(text) : {}; } catch { data = { detail: text }; }] *)
Definition parse_body (text : string) : value :=
  if String.eqb text "" then VObj []
  else match JSON_parse text with
       | Some data => data
       | None => VObj [("detail", VStr text)]
       end.

(** [(data && (data.detail || data.message)) || 'Ошибка запроса'] *)
Definition failure_value (data : value) : value :=
  js_or (if truthy data then js_or (prop data "detail") (prop data "message")
         else data)
        (VStr "Ошибка запроса").

(** [typeof message === 'string' ? message : JSON.stringify(message)] *)
Definition failure_message (data : value) : string :=
  match failure_value data with
  | VStr s => s
  | m => JSON_stringify m
  end.

Definition apiRequest (storage : gmap string string) (path : string)
  (opts : options) : result value :=
  match fetch (build_request storage path opts) with
  | Rejected e => Throw e
  | Response ok text =>
      let data := parse_body text in
      if ok then Return data else Throw (Error (failure_message data))
  end.

(** ** The login form *)

(** The state the submit handler of [#login] reads and writes: the two
    inputs and the error area of the form (the handler is registered only
    when the form is in the page), local storage, and the address the
    window was sent to, if any. *)
Record login_page : Type := LoginPage {
  loginUsername : string;
  loginPassword : string;
  loginError_text : string;
  loginError_classes : list string;
  login_storage : gmap string string;
  href : option string
}.

Definition show_login_error (msg : string) (st : login_page) : login_page :=
  LoginPage (loginUsername st) (loginPassword st) msg
    (if existsb (String.eqb "show") (loginError_classes st)
     then loginError_classes st else loginError_classes st ++ ["show"])
    (login_storage st) (href st).

(** The call
    [apiRequest('/login', { method: 'POST',
                            body: JSON.stringify({ username, password }) })]. *)
Definition login_call (st : login_page) : result value :=
  apiRequest (login_storage st) "/login"
    (Options (Some "POST")
       (Some (JSON_stringify
                (VObj [("username", VStr (trim (loginUsername st)));
                       ("password", VStr (loginPassword st))])))
       None).

Definition login_submit (st : login_page) : login_page :=
  let username := trim (loginUsername st) in
  let password := loginPassword st in
  if String.eqb username "" || String.eqb password "" then
    show_login_error "Заполните все поля!" st
  else
    match login_call st with
    | Return data =>
        let storage1 :=
          if truthy data && truthy (prop data "access_token")
          then <[ "token" := ToString (prop data "access_token") ]>
                 (login_storage st)
          else login_storage st in
        LoginPage (loginUsername st) (loginPassword st) ""
          (filter (λ c, c ≠ "show") (loginError_classes st))
          storage1 (Some "/home.html")
    | Throw err =>
        show_login_error
          (if String.eqb (message err) "" then "Ошибка входа"
           else message err) st
    end.

(** ** Cart and bookmarks *)

(** A cart or bookmark entry, and the movie descriptor [toggleCart] and
    [toggleBookmark] receive: [{ id, title, author, price }]. *)
Record item : Type := Item {
  id : value;
  title : value;
  author : value;
  price : value
}.

Definition item_value (it : item) : value :=
  VObj [("id", id it); ("title", title it); ("author", author it);
        ("price", price it)].

(** The state of the page the two stores work on: the arrays [cart] and
    [bookmarks], local storage, the text of the button elements (by handle),
    the messages shown by [alert] and the calls of [localStorage.setItem],
    both oldest first. *)
Record page : Type := Page {
  cart : list item;
  bookmarks : list item;
  localStorage : gmap string string;
  textContent : gmap nat string;
  alerts : list string;
  setItem_calls : list (string * string)
}.

(** The source has every function of this part twice, once for the cart and
    once for the bookmarks; the two copies differ in the array they work on
    and in these constants. *)
Inductive collection : Type := Cart | Bookmarks.

#[global] Instance collection_eq_dec : EqDecision collection.
Proof. solve_decision. Defined.

Definition entries (c : collection) (st : page) : list item :=
  match c with Cart => cart st | Bookmarks => bookmarks st end.

Definition set_entries (c : collection) (l : list item) (st : page) : page :=
  match c with
  | Cart => Page l (bookmarks st) (localStorage st) (textContent st)
              (alerts st) (setItem_calls st)
  | Bookmarks => Page (cart st) l (localStorage st) (textContent st)
                   (alerts st) (setItem_calls st)
  end.

Definition endpoint (c : collection) : string :=
  match c with Cart => "/cart" | Bookmarks => "/bookmarks" end.

Definition button_class (c : collection) : string :=
  match c with Cart => ".cart-btn" | Bookmarks => ".bookmark-btn" end.

Definition remove_glyph : string := "🗑️".

Definition default_glyph (c : collection) : string :=
  match c with Cart => "🛒" | Bookmarks => "🏷️" end.

Definition added_suffix (c : collection) : string :=
  match c with
  | Cart => " добавлен в корзину!"
  | Bookmarks => " добавлен в закладки!"
  end.

Definition removed_suffix (c : collection) : string :=
  match c with
  | Cart => " удалён из корзины!"
  | Bookmarks => " удалён из закладок!"
  end.

Definition failure_text (c : collection) : string :=
  match c with
  | Cart => "Ошибка работы с корзиной"
  | Bookmarks => "Ошибка работы с закладками"
  end.

(** The double quote, as a string. *)
Definition dquote : string := String (ascii_of_nat 34) EmptyString.

(** Computations on the page that may throw. *)
Definition M (A : Type) : Type := page → result A * page.

#[local] Instance M_ret : MRet M := λ A a st, (Return a, st).

#[local] Instance M_bind : MBind M := λ A B k m st,
  match m st with
  | (Return a, st') => k a st'
  | (Throw e, st') => (Throw e, st')
  end.

Definition throw {A : Type} (e : error) : M A := λ st, (Throw e, st).

Definition try_catch {A : Type} (m : M A) (handler : error → M A) : M A :=
  λ st, match m st with
        | (Throw e, st') => handler e st'
        | r => r
        end.

Definition gets {A : Type} (f : page → A) : M A := λ st, (Return (f st), st).

Definition modify (f : page → page) : M unit := λ st, (Return tt, f st).

Definition lift {A : Type} (r : result A) : M A := λ st, (r, st).

Definition alert (msg : string) : M unit :=
  modify (λ st, Page (cart st) (bookmarks st) (localStorage st) (textContent st)
                  (alerts st ++ [msg]) (setItem_calls st)).

Definition setItem (k v : string) : M unit :=
  modify (λ st, Page (cart st) (bookmarks st) (<[k := v]> (localStorage st))
                  (textContent st) (alerts st) (setItem_calls st ++ [(k, v)])).

(** [button.textContent = glyph], where [button] is [null] or an element. *)
Definition set_textContent (button : option nat) (glyph : string) : M unit :=
  match button with
  | None => throw (Error null_property_message)
  | Some b =>
      modify (λ st, Page (cart st) (bookmarks st) (localStorage st)
                      (<[b := glyph]> (textContent st)) (alerts st)
                      (setItem_calls st))
  end.

Definition query (selector : string) : M (option nat) :=
  match querySelector selector with
  | SyntaxError e => throw e
  | NoMatch => mret None
  | Match b => mret (Some b)
  end.

Definition api (path : string) (opts : options) : M value :=
  st ← gets localStorage; lift (apiRequest st path opts).

Definition updateStorage : M unit :=
  c ← gets cart;
  setItem "cart" (JSON_stringify (VArr (item_value <$> c)));;
  b ← gets bookmarks;
  setItem "bookmarks" (JSON_stringify (VArr (item_value <$> b))).

(** [addCartOnServer], [addBookmarkOnServer]. *)
Definition addOnServer (c : collection) (movie : item) : M value :=
  api (endpoint c)
    (Options (Some "POST")
       (Some (JSON_stringify
                (VObj [("movie_id", id movie); ("title", title movie);
                       ("author", author movie); ("price", price movie)])))
       None).

(** [removeCartOnServer], [removeBookmarkOnServer]. *)
Definition removeOnServer (c : collection) (movieId : value) : M value :=
  api (endpoint c +:+ "/" +:+ ToString movieId)
    (Options (Some "DELETE") None None).

(** [Array.prototype.findIndex]; [None] stands for -1. *)
Fixpoint findIndex {A : Type} (p : A → bool) (l : list A) : option nat :=
  match l with
  | [] => None
  | x :: rest => if p x then Some 0 else S <$> findIndex p rest
  end.

Definition same_id (movie it : item) : bool :=
  String.eqb (ToString (id it)) (ToString (id movie)).

(** The selector of the movie's button: [[data-id="${movie.id}"] .cart-btn]. *)
Definition button_selector (c : collection) (movie : item) : string :=
  "[data-id=" +:+ dquote +:+ ToString (id movie) +:+ dquote +:+ "] "
  +:+ button_class c.

(** [toggleCart], [toggleBookmark]. *)
Definition toggle (c : collection) (movie : item) : M unit :=
  index ← gets (λ st, findIndex (same_id movie) (entries c st));
  button ← query (button_selector c movie);
  try_catch
    (match index with
     | None =>
         addOnServer c movie;;
         modify (λ st, set_entries c (entries c st ++ [movie]) st);;
         set_textContent button remove_glyph;;
         alert ("Фильм " +:+ dquote +:+ ToString (title movie) +:+ dquote
                +:+ added_suffix c)
     | Some i =>
         removeOnServer c (id movie);;
         modify (λ st, set_entries c (delete i (entries c st)) st);;
         set_textContent button (default_glyph c);;
         alert ("Фильм " +:+ dquote +:+ ToString (title movie) +:+ dquote
                +:+ removed_suffix c)
     end;;
     updateStorage)
    (λ e, alert (if String.eqb (message e) "" then failure_text c
                 else message e)).

Definition toggleCart : item → M unit := toggle Cart.
Definition toggleBookmark : item → M unit := toggle Bookmarks.

(** The server call one invocation of [toggle] issues, with its outcome:
    none when the selector is refused (the exception leaves the function
    before the [try]), else the add request when no entry has the movie's
    id, and the remove request when one has. *)
Definition issued_call (c : collection) (movie : item) (st : page)
  : option (result value) :=
  match querySelector (button_selector c movie) with
  | SyntaxError _ => None
  | _ =>
      Some (match findIndex (same_id movie) (entries c st) with
            | None => (addOnServer c movie st).1
            | Some _ => (removeOnServer c (id movie) st).1
            end)
  end.

(** The number of entries of a collection whose id, as a string, is the
    movie's. *)
Definition count_id (movie : item) (l : list item) : nat :=
  length (filter (λ it, same_id movie it = true) l).

(** The projection of a server row in [fetchCartFromServer] and
    [fetchBookmarksFromServer]:
    [{ id: c.movie_id, title: c.title, author: c.author || '', price: c.price || '' }]. *)
Definition project (row : value) : result item :=
  match row with
  | VUndefined | VNull => Throw (Error null_read_message)
  | _ => Return (Item (prop row "movie_id") (prop row "title")
                   (js_or (prop row "author") (VStr ""))
                   (js_or (prop row "price") (VStr "")))
  end.

Fixpoint project_all (rows : list value) : result (list item) :=
  match rows with
  | [] => Return []
  | row :: rest =>
      match project row with
      | Throw e => Throw e
      | Return it =>
          match project_all rest with
          | Throw e => Throw e
          | Return its => Return (it :: its)
          end
      end
  end.

(** [fetchCartFromServer], [fetchBookmarksFromServer]: the array is replaced
    by the server's rows; any failure is swallowed. *)
Definition fetchFromServer (c : collection) : M (list item) :=
  try_catch
    (data ← api (endpoint c) no_options;
     l ← lift (match data with
               | VArr rows => project_all rows
               | _ => Throw (Error not_a_function_message)
               end);
     modify (set_entries c l);;
     updateStorage;;
     gets (entries c))
    (λ _, gets (entries c)).

(** ** The sort pipeline *)

(** A movie record: the own properties of the object parsed from the
    server's JSON. *)
Definition film : Type := object.

Definition num_of_Z (z : Z) : number := Fin (Q2Qc (inject_Z z)).

(** [x - y] on numbers. *)
Definition num_sub (x y : number) : number :=
  match x, y with
  | NaN, _ | _, NaN => NaN
  | PosInf, PosInf | NegInf, NegInf => NaN
  | PosInf, _ | _, NegInf => PosInf
  | NegInf, _ | _, PosInf => NegInf
  | Fin p, Fin q => Fin (p - q)
  end.

(** [x < y] on numbers; false as soon as one of them is [NaN]. *)
Definition num_ltb (x y : number) : bool :=
  match x, y with
  | NaN, _ | _, NaN => false
  | NegInf, NegInf | PosInf, _ | _, NegInf => false
  | NegInf, _ | _, PosInf => true
  | Fin p, Fin q => match (p ?= q)%Qc with Lt => true | _ => false end
  end.

(** [n || 0] for a number [n]. *)
Definition or_zero (n : number) : number :=
  if num_is_nan n || num_is_zero n then num_of_Z 0 else n.

(** The comparison function [sortFilms] hands to [sort]. *)
Definition compare_films (field : string) (a b : film) : number :=
  let valA := nullish (obj_get a field) (VStr "") in
  let valB := nullish (obj_get b field) (VStr "") in
  if String.eqb field "price" then
    let numA := or_zero (parseFloat valA) in
    let numB := or_zero (parseFloat valB) in
    num_sub numA numB
  else
    let valA := toLowerCase (ToString valA) in
    let valB := toLowerCase (ToString valB) in
    if string_ltb valA valB then num_of_Z (-1)
    else if string_ltb valB valA then num_of_Z 1
    else num_of_Z 0.

(** How [Array.prototype.sort] reads the number its comparison function
    returns: negative, positive, or neither ([NaN] counts as zero). *)
Definition SortCompare (v : number) : comparison :=
  if num_ltb v (num_of_Z 0) then Lt
  else if num_ltb (num_of_Z 0) v then Gt
  else Eq.

(** [Array.prototype.sort]. ECMAScript fixes its result for a consistent
    comparison function: the stable sorted arrangement. Insertion from the
    right computes that arrangement: an element goes in front of the first
    element it does not come after, so in front of its equals, which it
    preceded in the input. *)
Fixpoint sort_insert {A : Type} (comparefn : A → A → number) (x : A)
  (l : list A) : list A :=
  match l with
  | [] => [x]
  | y :: rest =>
      match SortCompare (comparefn x y) with
      | Gt => y :: sort_insert comparefn x rest
      | _ => x :: y :: rest
      end
  end.

Definition Array_sort {A : Type} (comparefn : A → A → number) (l : list A)
  : list A :=
  foldr (sort_insert comparefn) [] l.

(** Arrays are objects in a store, named by their address: [sort] works in
    place, a spread allocates. *)
Definition spread (h : gmap nat (list film)) (a : nat)
  : option (nat * gmap nat (list film)) :=
  arr ← h !! a;
  let l := fresh (dom h) in
  Some (l, <[l := arr]> h).

Definition sort_in_place (comparefn : film → film → number)
  (h : gmap nat (list film)) (a : nat) : option (nat * gmap nat (list film)) :=
  arr ← h !! a;
  Some (a, <[a := Array_sort comparefn arr]> h).

(** [sortFilms(films, field)] is [[...films].sort(...)]: it returns the
    address of the sorted copy and the store after the call. *)
Definition sortFilms (h : gmap nat (list film)) (films : nat) (field : string)
  : option (nat * gmap nat (list film)) :=
  '(copy, h1) ← spread h films;
  sort_in_place (compare_films field) h1 copy.

(** The order the sort pipeline is specified against: numbers in ascending
    order ([NaN] is not comparable), texts in the lexicographic order of
    their code units and, per film, the two keys the spec names: the numeric
    parse of the price with non-numeric values as 0, and the lower-cased text
    of a field with a missing value as the empty string. *)
Fixpoint units_le (u v : list N) : Prop :=
  match u, v with
  | [], _ => True
  | _ :: _, [] => False
  | x :: u', y :: v' => (x < y)%N ∨ (x = y ∧ units_le u' v')
  end.

Definition code_unit_le (a b : string) : Prop :=
  units_le (code_units a) (code_units b).

Definition num_le (x y : number) : Prop :=
  match x, y with
  | NaN, _ | _, NaN => False
  | NegInf, _ | _, PosInf => True
  | Fin p, Fin q => (p ≤ q)%Qc
  | _, _ => False
  end.

Definition price_key (a : film) : number :=
  match parseFloat (nullish (obj_get a "price") (VStr "")) with
  | NaN => num_of_Z 0
  | n => n
  end.

Definition text_key (field : string) (a : film) : string :=
  toLowerCase (ToString (nullish (obj_get a field) (VStr ""))).

Definition film_le (field : string) (a b : film) : Prop :=
  if String.eqb field "price" then num_le (price_key a) (price_key b)
  else code_unit_le (text_key field a) (text_key field b).

#[global] Instance num_le_dec (x y : number) : Decision (num_le x y).
Proof. destruct x, y; simpl; apply _. Defined.

#[global] Instance units_le_dec (u v : list N) : Decision (units_le u v).
Proof.
  revert v. induction u as [|x u IH]; intros [|y v]; simpl; apply _.
Defined.

#[global] Instance code_unit_le_dec (a b : string)
  : Decision (code_unit_le a b).
Proof. unfold code_unit_le. apply _. Defined.

#[global] Instance film_le_dec (field : string) (a b : film)
  : Decision (film_le field a b).
Proof. unfold film_le. destruct (String.eqb field "price"); apply _. Defined.

(** ** Image resolution *)

Definition titleMapping : object :=
  [ ("The Dark Knight", VStr "/images_for_movies/the_dark_knight.jpg");
    ("Gladiator", VStr "/images_for_movies/gladiator.jpg");
    ("Mad Max: Fury Road", VStr "/images_for_movies/mad_max_fury_road.jpg");
    ("Forrest Gump", VStr "/images_for_movies/forrest_gump.jpg");
    ("Fight Club", VStr "/images_for_movies/fight_club.jpg");
    ("Alien", VStr "/images_for_movies/alien.jpg");
    ("Conjuring", VStr "/images_for_movies/conjuring.jpg");
    ("Conjuring 2", VStr "/images_for_movies/conjuring_2.jpg");
    ("Inception", VStr "/images_for_movies/inception.jpg");
    ("The Matrix", VStr "/images_for_movies/the_matrix.jpg");
    ("Interstellar", VStr "/images_for_movies/interstellar.jpg");
    ("Lord of the Rings: The Return of the King",
     VStr "/images_for_movies/lord_of_the_rings_the_return_of_the_king.jpg");
    ("Amelie", VStr "/images_for_movies/amelie.jpg");
    ("The Shawshank Redemption",
     VStr "/images_for_movies/the_shawshank_redemption.jpg");
    ("Star Wars", VStr "/images_for_movies/star_wars.jpg") ].

Definition placeholder : string := "/images_for_movies/placeholder.jpg".

(** The loop over [Object.entries(titleMapping)]. *)
Fixpoint first_entry (titleLower : string) (entries : object) : option value :=
  match entries with
  | [] => None
  | (key, v) :: rest =>
      if String.eqb (toLowerCase key) titleLower then Some v
      else first_entry titleLower rest
  end.

Definition getImagePathForFilm (title : value) : result value :=
  let exact := obj_get titleMapping (ToString title) in
  if truthy exact then Return exact
  else
    match title with
    | VStr t =>
        match first_entry (toLowerCase t) titleMapping with
        | Some v => Return v
        | None => Return (VStr placeholder)
        end
    | VUndefined | VNull => Throw (Error null_read_message)
    | _ => Throw (Error not_a_function_message)
    end.

(** The image source [renderMovies] computes for a movie record. *)
Definition imageSrc (f : film) : result value :=
  let movie_base64 := obj_get f "movie_base64" in
  if truthy movie_base64 then
    match movie_base64 with
    | VStr s =>
        if String.prefix "data:image/" s then Return (VStr s)
        else Return (VStr ("data:image/jpeg;base64," +:+ s))
    | _ => Throw (Error not_a_function_message)
    end
  else getImagePathForFilm (obj_get f "title").

(** The same computation in the older copy of the script
    (src/unnamed/part_000), which also passes any other data URI through. *)
Definition imageSrc_part_000 (f : film) : result value :=
  let movie_base64 := obj_get f "movie_base64" in
  if truthy movie_base64 then
    match movie_base64 with
    | VStr s =>
        if String.prefix "data:image/" s then Return (VStr s)
        else if String.prefix "data:" s then Return (VStr s)
        else Return (VStr ("data:image/jpeg;base64," +:+ s))
    | _ => Throw (Error not_a_function_message)
    end
  else getImagePathForFilm (obj_get f "title").

(** ** The registration form *)

(** The state the submit handler of [#register] reads and writes: the four
    inputs and the error area [#error] of the form, local storage (read by
    the gateway) and the document that [showForm] works on. The error area
    is neither a [.form] element nor [#loginForm]. *)
Record register_page : Type := RegisterPage {
  username : string;
  email : string;
  password : string;
  confirmPassword : string;
  error_text : string;
  error_classes : list string;
  register_storage : gmap string string;
  register_document : list element
}.

Definition show_register_error (msg : string) (st : register_page)
  : register_page :=
  RegisterPage (username st) (email st) (password st) (confirmPassword st) msg
    (if existsb (String.eqb "show") (error_classes st)
     then error_classes st else error_classes st ++ ["show"])
    (register_storage st) (register_document st).

(** The call
    [apiRequest('/register', { method: 'POST',
                               body: JSON.stringify({ username, email, password }) })]. *)
Definition register_call (st : register_page) : result value :=
  apiRequest (register_storage st) "/register"
    (Options (Some "POST")
       (Some (JSON_stringify
                (VObj [("username", VStr (trim (username st)));
                       ("email", VStr (trim (email st)));
                       ("password", VStr (password st))])))
       None).

Definition register_submit (st : register_page) : register_page :=
  if negb (String.eqb (password st) (confirmPassword st)) then
    show_register_error "Пароли не совпадают!" st
  else
    match register_call st with
    | Return _ =>
        RegisterPage (username st) (email st) (password st)
          (confirmPassword st) ""
          (filter (λ c, c ≠ "show") (error_classes st))
          (register_storage st)
          (showForm "loginForm" (register_document st))
    | Throw err =>
        show_register_error
          (if String.eqb (message err) "" then "Ошибка регистрации"
           else message err) st
    end.

(** ** Rendering the movie cards *)

(** [encodeURIComponent]; it throws a URIError on a lone surrogate. *)
Variable encodeURIComponent : string → result string.

(** What [renderMovies] puts in a card: the [data-id] attribute, the source,
    the alternative text and the fallback of the image, the texts of the
    title, author and price lines and of the two buttons. *)
Record card : Type := Card {
  data_id : string;
  img_src : string;
  img_alt : string;
  img_fallback : string;
  movie_title : string;
  movie_author : string;
  movie_price : string;
  bookmark_btn : string;
  cart_btn : string
}.

(** An assignment [node.textContent = v]: [null] and [undefined] give the
    empty text. *)
Definition text_of (v : value) : string :=
  match v with
  | VUndefined | VNull => ""
  | _ => ToString v
  end.

Definition fallbackImage (encoded : string) : string :=
  "data:image/svg+xml,%3Csvg xmlns='http://www.w3.org/2000/svg' width='160' height='220'%3E%3Crect fill='%23000' width='160' height='220'/%3E%3Ctext x='50%25' y='50%25' fill='white' text-anchor='middle' dominant-baseline='middle' font-size='14'%3E"
  +:+ encoded +:+ "%3C/text%3E%3C/svg%3E".

(** [film.id || film.flim_id], the value of the [data-id] attribute. *)
Definition card_id (f : film) : value :=
  js_or (obj_get f "id") (obj_get f "flim_id").

(** [film.title_ru || film.title]. *)
Definition titleToDisplay (f : film) : value :=
  js_or (obj_get f "title_ru") (obj_get f "title").

Definition price_text (f : film) : string :=
  if truthy (obj_get f "price") then ToString (obj_get f "price") +:+ " ₽/шт"
  else "Цена не указана".

Definition author_text (f : film) : string :=
  ToString (js_or (obj_get f "author") (VStr "Неизвестный режиссёр")).

(** The body of the callback of [films.forEach], up to the card it appends. *)
Definition render_card (f : film) : result card :=
  match imageSrc f with
  | Throw e => Throw e
  | Return src =>
      match encodeURIComponent (ToString (titleToDisplay f)) with
      | Throw e => Throw e
      | Return encoded =>
          Return (Card (ToString (card_id f)) (ToString src)
                    (ToString (titleToDisplay f)) (fallbackImage encoded)
                    (text_of (titleToDisplay f)) (author_text f)
                    (price_text f) (default_glyph Bookmarks)
                    (default_glyph Cart))
      end
  end.

(** The same callback in the older copy of the script
    (src/unnamed/part_000): the [data-id] attribute is [film.flim_id]. *)
Definition render_card_part_000 (f : film) : result card :=
  match imageSrc_part_000 f with
  | Throw e => Throw e
  | Return src =>
      match encodeURIComponent (ToString (titleToDisplay f)) with
      | Throw e => Throw e
      | Return encoded =>
          Return (Card (ToString (obj_get f "flim_id")) (ToString src)
                    (ToString (titleToDisplay f)) (fallbackImage encoded)
                    (text_of (titleToDisplay f)) (author_text f)
                    (price_text f) (default_glyph Bookmarks)
                    (default_glyph Cart))
      end
  end.

(** An element of the array as the callback reads it: a read on [null] or
    [undefined] throws; a value that is not an object has none of the
    properties the callback reads. *)
Definition film_of (v : value) : result film :=
  match v with
  | VObj o => Return o
  | VUndefined | VNull => Throw (Error null_read_message)
  | _ => Return []
  end.

(** [films.forEach(...)]: the cards are appended one by one; an exception
    leaves the loop with the cards appended so far in the container. *)
Fixpoint render_each (items : list value) (container : list card)
  : result unit * list card :=
  match items with
  | [] => (Return tt, container)
  | v :: rest =>
      match film_of v with
      | Throw e => (Throw e, container)
      | Return f =>
          match render_card f with
          | Throw e => (Throw e, container)
          | Return c => render_each rest (container ++ [c])
          end
      end
  end.

(** An element of the array that the callback turns into the card [c], and
    one on which it throws [e]. *)
Definition rendered (v : value) (c : card) : Prop :=
  ∃ f, film_of v = Return f ∧ render_card f = Return c.

Definition render_fails (v : value) (e : error) : Prop :=
  film_of v = Throw e ∨ ∃ f, film_of v = Return f ∧ render_card f = Throw e.

(** [renderMovies(films, container)], for a container that exists: the
    container is emptied first. *)
Definition renderMovies (films : value) (container : list card)
  : result unit * list card :=
  match films with
  | VArr items => render_each items []
  | VUndefined | VNull => (Throw (Error null_read_message), [])
  | _ => (Throw (Error not_a_function_message), [])
  end.

(** ** Clicks on the cards *)

(** The card a click happened in, as the handler reads it: its [data-id]
    attribute and the texts of its title, author and price lines, each
    [None] when the attribute or the element is missing. *)
Record clicked_card : Type := ClickedCard {
  attr_data_id : option string;
  title_line : option string;
  author_line : option string;
  price_line : option string
}.

(** A click: whether its target is inside a [.cart-btn], inside a
    [.bookmark-btn], and the closest [.movie-card], if any. *)
Record click : Type := Click {
  cartBtn : bool;
  bookmarkBtn : bool;
  closest_card : option clicked_card
}.

(** The descriptor [{ id, title, author, price }] the handler builds. *)
Definition clicked_movie (c : clicked_card) : item :=
  Item (match attr_data_id c with Some s => VStr s | None => VNull end)
       (VStr (default "" (title_line c)))
       (VStr (default "" (author_line c)))
       (VStr (default "" (price_line c))).

(** The click listener of [document.body]. *)
Definition on_click (e : click) : M unit :=
  if negb (cartBtn e) && negb (bookmarkBtn e) then mret tt
  else
    match closest_card e with
    | None => mret tt
    | Some c =>
        let movie := clicked_movie c in
        (if cartBtn e then toggleCart movie else mret tt);;
        (if bookmarkBtn e then toggleBookmark movie else mret tt)
    end.

(** A rendered card, as a click in it reads it. *)
Definition card_view (c : card) : clicked_card :=
  ClickedCard (Some (data_id c)) (Some (movie_title c))
    (Some (movie_author c)) (Some (movie_price c)).

(** ** The home page *)

(** The state [loadHomeMovies] and the sort handler work on: the variable
    [allFilmsCache], the two sections (their cards, [None] when the element
    is not in the page), local storage and the errors written to the
    console. *)
Record home_page : Type := HomePage {
  allFilmsCache : value;
  allMoviesSection : option (list card);
  randomMoviesSection : option (list card);
  home_storage : gmap string string;
  console_errors : list error
}.

Definition loadHomeMovies (st : home_page) : home_page :=
  match allMoviesSection st, randomMoviesSection st with
  | Some all, Some random =>
      match apiRequest (home_storage st) "/films/all" no_options with
      | Throw e =>
          HomePage (allFilmsCache st) (Some all) (Some random)
            (home_storage st) (console_errors st ++ [e])
      | Return allFilms =>
          match renderMovies allFilms all with
          | (Throw e, all') =>
              HomePage allFilms (Some all') (Some random) (home_storage st)
                (console_errors st ++ [e])
          | (Return _, all') =>
              match apiRequest (home_storage st) "/films/random/4"
                      no_options with
              | Throw e =>
                  HomePage allFilms (Some all') (Some random)
                    (home_storage st) (console_errors st ++ [e])
              | Return randomFilms =>
                  match renderMovies randomFilms random with
                  | (Throw e, random') =>
                      HomePage allFilms (Some all') (Some random')
                        (home_storage st) (console_errors st ++ [e])
                  | (Return _, random') =>
                      HomePage allFilms (Some all') (Some random')
                        (home_storage st) (console_errors st)
                  end
              end
          end
      end
  | _, _ => st
  end.

(** The change handler of [#sortSelect], for a cache that is an array of
    movie records at address [cache] of the store: the films are sorted into
    a new array, which is rendered into [#allMoviesSection]. A dangling
    address gives [None]. *)
Definition sort_change (field : string) (h : gmap nat (list film))
  (cache : nat) (section : option (list card))
  : option (gmap nat (list film) * (result unit * option (list card))) :=
  '(sorted, h') ← sortFilms h cache field;
  films ← h' !! sorted;
  Some (h',
        match section with
        | None => (Throw (Error null_property_message), None)
        | Some container =>
            let '(r, container') := renderMovies (VArr (VObj <$> films))
                                      container in
            (r, Some container')
        end).

(** ** Sample data for the closed examples *)
Definition page_location : Location :=
  {| protocol := "https:"; origin := "https://videoteka.example" |}.

(** The messages V8 gives the TypeErrors. *)
Definition null_message : string :=
  "Cannot set properties of null (setting 'textContent')".

Definition read_message : string :=
  "Cannot read properties of undefined (reading 'toLowerCase')".

Definition not_a_function : string := "data.map is not a function".

Definition alien : item :=
  Item (VStr "7") (VStr "Alien") (VStr "Ridley Scott") (VStr "299 ₽/шт").

(** The same movie as the server lists it: its id is a number. *)
Definition alien_row : value :=
  VObj [("movie_id", VNum (num_of_Z 7)); ("title", VStr "Alien");
        ("author", VStr "Ridley Scott"); ("price", VNum (num_of_Z 299))].

Definition empty_page : page := Page [] [] ∅ ∅ [] [].

Definition page_with_alien : page := Page [alien] [] ∅ ∅ [] [].

Definition server_down (_ : request) : fetch_result :=
  Response false "Service Unavailable".

Definition server_ok (_ : request) : fetch_result := Response true "".

(** A row without an author and with the price 0. *)
Definition sparse_row : value :=
  VObj [("movie_id", VNum (num_of_Z 8)); ("title", VStr "Solaris");
        ("price", VNum (num_of_Z 0))].

Definition server_rows (_ : request) : fetch_result :=
  Response true (Ref.JSON_stringify (VArr [alien_row; sparse_row])).

(** A server whose cart lists the same movie twice. *)
Definition server_twice (_ : request) : fetch_result :=
  Response true (Ref.JSON_stringify (VArr [alien_row; alien_row])).

Definition one_button (_ : string) : query_result := Match 0.

Definition no_button (_ : string) : query_result := NoMatch.

Definition two_forms : list element :=
  [ Element (Some "registerForm") ["form"; "active"];
    Element (Some "loginForm") ["form"] ].


Definition filmA : film := [("title", VStr "A"); ("price", VStr "5")].

Definition filmB : film := [("title", VStr "B"); ("price", VStr "20")].

Definition cache : gmap nat (list film) := {[ 0 := [filmB; filmA] ]}.

Definition filmC : film := [("title", VStr "C"); ("price", VStr "20.0")].

Definition cache3 : gmap nat (list film) := {[ 0 := [filmC; filmB; filmA] ]}.

(** Titles that differ in case, a film without a title, and two titles whose
    bytes and code units are in opposite orders: U+FF01 and U+1F600. *)
Definition film_b : film := [("title", VStr "b")].

Definition film_untitled : film := [("price", VStr "1")].

Definition film_wide : film := [("title", VStr "！")].

Definition film_smile : film := [("title", VStr "😀")].

Definition titles : gmap nat (list film) :=
  {[ 0 := [film_wide; film_b; film_smile; film_untitled; filmA] ]}.

Definition anna : login_page := LoginPage " anna " "secret" "" [] ∅ None.

Definition login_plain (_ : request) : fetch_result :=
  Response true (Ref.JSON_stringify (VObj [("user", VStr "anna")])).

Definition login_token (_ : request) : fetch_result :=
  Response true (Ref.JSON_stringify (VObj [("access_token", VStr "t1")])).

Definition two_passwords : register_page :=
  RegisterPage "boris" "boris@example.org" "secret" "secrat" "" ["error"] ∅
    two_forms.

Definition boris : register_page :=
  RegisterPage "boris" "boris@example.org" "secret" "secret" "old message"
    ["error"; "show"] ∅ two_forms.

Definition no_password : login_page := LoginPage "anna" "" "" [] ∅ None.

Definition signed_in_page : page := Page [] [] {[ "token" := "t1" ]} ∅ [] [].

(** Two records of the listing with the same id, once a number and once a
    string, and the cards they are rendered to. *)
Definition film7 : film :=
  [("id", VNum (num_of_Z 7)); ("title", VStr "Alien");
   ("author", VStr "Ridley Scott"); ("price", VNum (num_of_Z 299))].

Definition film7s : film := [("id", VStr "7"); ("title", VStr "Solaris")].

Definition card7 : card :=
  Card "7" "/images_for_movies/alien.jpg" "Alien" (fallbackImage "Alien")
    "Alien" "Ridley Scott" "299 ₽/шт" (default_glyph Bookmarks)
    (default_glyph Cart).

Definition card7s : card :=
  Card "7" placeholder "Solaris" (fallbackImage "Solaris") "Solaris"
    "Неизвестный режиссёр" "Цена не указана" (default_glyph Bookmarks)
    (default_glyph Cart).

(** The same cards in the older copy of the script. *)
Definition card7_part_000 : card :=
  Card "undefined" "/images_for_movies/alien.jpg" "Alien"
    (fallbackImage "Alien") "Alien" "Ridley Scott" "299 ₽/шт"
    (default_glyph Bookmarks) (default_glyph Cart).

Definition card7s_part_000 : card :=
  Card "undefined" placeholder "Solaris" (fallbackImage "Solaris") "Solaris"
    "Неизвестный режиссёр" "Цена не указана" (default_glyph Bookmarks)
    (default_glyph Cart).

Definition listing : gmap nat (list film) := {[ 0 := [film7s; film7] ]}.

(** A server that lists the two records, whatever the path. *)
Definition server_films (_ : request) : fetch_result :=
  Response true (Ref.JSON_stringify (VArr [VObj film7s; VObj film7])).

Definition empty_home : home_page := HomePage (VArr []) (Some []) (Some []) ∅ [].

(** * Properties *)

(** Drops the variables of the section that a goal does not mention, so that
    automation does not sweep them into the proof. *)
Ltac forget_engine :=
  try clear fetch; try clear querySelector; try clear location;
  try clear JSON_stringify; try clear JSON_parse;
  try clear parseFloat_string; try clear trim; try clear toLowerCase;
  try clear Number_toString; try clear null_property_message;
  try clear null_read_message; try clear not_a_function_message;
  try clear encodeURIComponent.

(** ** Session forms *)

Lemma contains_true (cls : string) (e : element) :
  contains cls e = true ↔ cls ∈ classList e.
Proof.
  unfold contains. rewrite existsb_exists. split.
  - intros (x & Hin & Heq). apply String.eqb_eq in Heq as ->.
    by apply list_elem_of_In.
  - intros Hin. exists cls. split; [by apply list_elem_of_In|apply String.eqb_refl].
Qed.

Lemma contains_remove (cls cls' : string) (e : element) :
  contains cls (classList_remove cls' e)
  = contains cls e && negb (String.eqb cls cls').
Proof.
  apply eq_true_iff_eq. rewrite andb_true_iff, negb_true_iff, !contains_true.
  unfold classList_remove; simpl. rewrite list_elem_of_filter.
  rewrite String.eqb_neq. split; intros [? ?]; by split.
Qed.

Lemma contains_add (cls : string) (e : element) :
  contains cls (classList_add cls e) = true.
Proof.
  unfold classList_add. destruct (contains cls e) eqn:E; [done|].
  apply contains_true; simpl. forget_engine. set_solver.
Qed.

Lemma deactivate_id (e : element) : el_id (deactivate e) = el_id e.
Proof. unfold deactivate. by repeat case_match. Qed.

Lemma deactivate_form (e : element) :
  contains "form" (deactivate e) = contains "form" e.
Proof.
  unfold deactivate. repeat case_match; try done.
  rewrite contains_remove. simpl. by rewrite andb_true_r.
Qed.

Lemma deactivate_inactive (e : element) :
  contains "form" e = true → contains "active" (deactivate e) = false.
Proof.
  intros Hf. unfold deactivate. rewrite Hf.
  destruct (contains "active" e) eqn:Ha; [|done].
  rewrite contains_remove. simpl. apply andb_false_r.
Qed.

Lemma getElementById_deactivate (formId : string) (doc : list element) :
  getElementById formId (deactivate <$> doc) = getElementById formId doc.
Proof.
  induction doc as [|e doc IH]; [done|]. rewrite fmap_cons. simpl.
  by rewrite deactivate_id, IH.
Qed.

Lemma getElementById_Some (formId : string) (doc : list element) (i : nat) :
  getElementById formId doc = Some i →
  ∃ e, doc !! i = Some e ∧ el_id e = Some formId.
Proof.
  revert i. induction doc as [|e doc IH]; intros i; [done|]. simpl.
  case_bool_decide as Hid.
  - intros [= <-]. by exists e.
  - destruct (getElementById formId doc) as [j|]; [|done].
    intros [= <-]. simpl. by apply IH.
Qed.

Lemma showForm_unfold (formId : string) (doc : list element) :
  showForm formId doc =
  match getElementById formId doc with
  | Some target => alter (classList_add "active") target (deactivate <$> doc)
  | None => deactivate <$> doc
  end.
Proof.
  unfold showForm. by rewrite getElementById_deactivate.
Qed.

Lemma filter_absent (cls : string) (l : list string) :
  existsb (String.eqb cls) l = false → filter (λ c, c ≠ cls) l = l.
Proof.
  induction l as [|c l IH]; [done|]. simpl. intros H.
  apply orb_false_elim in H as [Hc Hl].
  rewrite filter_cons_True.
  - by rewrite IH.
  - intros ->. by rewrite String.eqb_refl in Hc.
Qed.

(** What the callback leaves of the classes of an element. *)
Lemma deactivate_classes (e : element) :
  classList (deactivate e)
  = if contains "form" e then filter (λ c, c ≠ "active") (classList e)
    else classList e.
Proof.
  unfold deactivate. destruct (contains "form" e); [|done].
  destruct (contains "active" e) eqn:Ha; [done|].
  symmetry. by apply filter_absent.
Qed.

(** C7, as the code has it: after [showForm(formId)] a form element is active
    only if it is the target, and the target, when there is one, is active;
    when no element has the given id, every form element has lost its active
    state, keeping its other classes, and no other element has changed. In
    every case the document keeps its elements and their ids; the classes of
    an element are the old ones, without [active] for a form element, and
    with [active] at the end for the target if it is not among them. *)
Theorem showForm_one_active (formId : string) (doc : list element) :
  (∀ i e', showForm formId doc !! i = Some e' →
           contains "form" e' = true → contains "active" e' = true →
           getElementById formId doc = Some i) ∧
  (∀ target, getElementById formId doc = Some target →
             ∃ e', showForm formId doc !! target = Some e' ∧
                   contains "active" e' = true) ∧
  (getElementById formId doc = None →
   ∀ i e, doc !! i = Some e →
          ∃ e', showForm formId doc !! i = Some e' ∧
                el_id e' = el_id e ∧
                (contains "form" e = true →
                 contains "active" e' = false ∧
                 classList e' = filter (λ c, c ≠ "active") (classList e)) ∧
                (contains "form" e = false → e' = e)) ∧
  length (showForm formId doc) = length doc ∧
  (∀ target i e,
     getElementById formId doc = Some target → doc !! i = Some e →
     ∃ e', showForm formId doc !! i = Some e' ∧
           el_id e' = el_id e ∧
           classList e'
           = if bool_decide (i = target) then
               if existsb (String.eqb "active")
                    (if contains "form" e
                     then filter (λ c, c ≠ "active") (classList e)
                     else classList e)
               then (if contains "form" e
                     then filter (λ c, c ≠ "active") (classList e)
                     else classList e)
               else (if contains "form" e
                     then filter (λ c, c ≠ "active") (classList e)
                     else classList e) ++ ["active"]
             else if contains "form" e
                  then filter (λ c, c ≠ "active") (classList e)
                  else classList e).
Proof.
  rewrite showForm_unfold. split_and!.
  - intros i e' Hi Hform Hact.
    destruct (getElementById formId doc) as [target|] eqn:Ht.
    + destruct (decide (target = i)) as [->|Hne]; [done|].
      rewrite list_lookup_alter_ne in Hi by done.
      rewrite list_lookup_fmap in Hi.
      destruct (doc !! i) as [e|]; simplify_eq/=.
      rewrite deactivate_form in Hform.
      by rewrite (deactivate_inactive e) in Hact.
    + rewrite list_lookup_fmap in Hi.
      destruct (doc !! i) as [e|]; simplify_eq/=.
      rewrite deactivate_form in Hform.
      by rewrite (deactivate_inactive e) in Hact.
  - intros target Ht. rewrite Ht.
    apply getElementById_Some in Ht as (e & He & _).
    exists (classList_add "active" (deactivate e)). split.
    + rewrite list_lookup_alter_eq.
      by rewrite list_lookup_fmap, He.
    + apply contains_add.
  - intros Hnone i e He. rewrite Hnone. exists (deactivate e).
    rewrite list_lookup_fmap, He. split; [done|].
    split; [apply deactivate_id|]. split.
    + intros Hf. split; [by apply deactivate_inactive|].
      by rewrite deactivate_classes, Hf.
    + intros Hf. unfold deactivate. by rewrite Hf.
  - destruct (getElementById formId doc) as [target|].
    + by rewrite length_alter, length_fmap.
    + by rewrite length_fmap.
  - intros target i e Ht He. rewrite Ht.
    case_bool_decide as Hi.
    + subst i. exists (classList_add "active" (deactivate e)).
      rewrite list_lookup_alter_eq, list_lookup_fmap, He.
      split; [done|]. rewrite <-deactivate_classes.
      unfold classList_add, contains.
      destruct (existsb (String.eqb "active") (classList (deactivate e)));
        simpl; split; try done; apply deactivate_id.
    + exists (deactivate e).
      rewrite list_lookup_alter_ne by done.
      rewrite list_lookup_fmap, He.
      split; [done|]. split; [apply deactivate_id|apply deactivate_classes].
Qed.

(** ** The request gateway *)





Lemma parse_body_empty : parse_body "" = VObj [].
Proof. reflexivity. Qed.

Lemma parse_body_not_json (text : string) :
  text ≠ "" → JSON_parse text = None →
  parse_body text = VObj [("detail", VStr text)].
Proof.
  intros Hne Hp. unfold parse_body.
  apply String.eqb_neq in Hne as ->. by rewrite Hp.
Qed.

Lemma parse_body_json (text : string) (v : value) :
  text ≠ "" → JSON_parse text = Some v → parse_body text = v.
Proof.
  intros Hne Hp. unfold parse_body.
  apply String.eqb_neq in Hne as ->. by rewrite Hp.
Qed.

(** The value the error message is made from, in the order the spec gives:
    the body's [detail], else its [message], else the generic phrase. *)
Lemma failure_value_chain (data : value) :
  failure_value data =
  if truthy data && truthy (prop data "detail") then prop data "detail"
  else if truthy data && truthy (prop data "message") then prop data "message"
  else VStr "Ошибка запроса".
Proof.
  unfold failure_value, js_or.
  destruct (truthy data) eqn:Hd; simpl.
  - destruct (truthy (prop data "detail")) eqn:H1; simpl; [by rewrite H1|].
    by destruct (truthy (prop data "message")) eqn:H2; rewrite ?H2.
  - by rewrite Hd.
Qed.

(** C5: for a response with body [text], the parsed body is the empty object
    when [text] is empty, [{ detail: text }] when [text] is not JSON, and
    the parsed JSON otherwise; on a success status [apiRequest] returns it,
    and on any other status it throws an error whose message is the body's
    [detail], else its [message], else the generic phrase, passed through
    [JSON.stringify] unless it is a string. *)
Theorem apiRequest_response (storage : gmap string string) (path : string)
  (opts : options) (ok : bool) (text : string) :
  fetch (build_request storage path opts) = Response ok text →
  ∃ data : value,
    (text = "" → data = VObj []) ∧
    (text ≠ "" → JSON_parse text = None → data = VObj [("detail", VStr text)]) ∧
    (∀ v, text ≠ "" → JSON_parse text = Some v → data = v) ∧
    (ok = true → apiRequest storage path opts = Return data) ∧
    (ok = false →
     ∃ m : value,
       m = (if truthy data && truthy (prop data "detail") then prop data "detail"
            else if truthy data && truthy (prop data "message")
                 then prop data "message"
                 else VStr "Ошибка запроса") ∧
       apiRequest storage path opts
       = Throw (Error (match m with VStr s => s | _ => JSON_stringify m end))).
Proof.
  intros Hf. exists (parse_body text). split_and!.
  - by intros ->.
  - apply parse_body_not_json.
  - intros v. apply parse_body_json.
  - intros ->. unfold apiRequest. by rewrite Hf.
  - intros ->. eexists. split; [reflexivity|].
    unfold apiRequest. rewrite Hf. simpl.
    unfold failure_message. rewrite failure_value_chain.
    match goal with |- context [match ?m with VStr _ => _ | _ => _ end] =>
      by destruct m
    end.
Qed.

(** ** The login form *)

(** C10: a login with a non-empty (trimmed) user name and a non-empty
    password whose gateway call returns a body without an [access_token]
    field leaves local storage as it was and sends the window to
    [/home.html]. *)
Theorem login_without_token (st : login_page) (data : value) :
  trim (loginUsername st) ≠ "" →
  loginPassword st ≠ "" →
  login_call st = Return data →
  (∀ o, data = VObj o → own_get o "access_token" = None) →
  login_storage (login_submit st) = login_storage st ∧
  href (login_submit st) = Some "/home.html".
Proof.
  intros Hu Hp Hcall Hno. unfold login_submit.
  apply String.eqb_neq in Hu as ->. apply String.eqb_neq in Hp as ->.
  simpl. rewrite Hcall.
  assert (prop data "access_token" = VUndefined) as ->.
  { destruct data; try reflexivity. simpl. unfold obj_get.
    by rewrite (Hno props eq_refl). }
  simpl. by rewrite andb_false_r.
Qed.

(** ** Cart and bookmarks *)

Lemma findIndex_None {A : Type} (p : A → bool) (l : list A) :
  findIndex p l = None ↔ filter (λ x, p x = true) l = [].
Proof.
  induction l as [|x l IH]; [done|]. simpl.
  destruct (p x) eqn:Hp.
  - rewrite filter_cons_True by done. done.
  - rewrite filter_cons_False by (by rewrite Hp).
    destruct (findIndex p l); simpl; [|exact IH].
    split; [done|]. intros H. by apply IH in H.
Qed.

Lemma findIndex_Some {A : Type} (p : A → bool) (l : list A) (i : nat) :
  findIndex p l = Some i →
  ∃ x, l !! i = Some x ∧ p x = true ∧
       filter (λ x, p x = true) (take i l) = [].
Proof.
  revert i. induction l as [|x l IH]; intros i; [done|]. simpl.
  destruct (p x) eqn:Hp.
  - intros [= <-]. by exists x.
  - destruct (findIndex p l) as [j|]; [|done]. intros [= <-].
    destruct (IH j eq_refl) as (y & Hy & Hpy & Htake).
    exists y. simpl. split_and!; [done..|].
    rewrite filter_cons_False by (by rewrite Hp). done.
Qed.

Lemma count_id_app (movie : item) (l1 l2 : list item) :
  count_id movie (l1 ++ l2) = count_id movie l1 + count_id movie l2.
Proof. unfold count_id. by rewrite filter_app, length_app. Qed.

Lemma count_id_zero (movie : item) (l : list item) :
  count_id movie l = 0 ↔ findIndex (same_id movie) l = None.
Proof.
  rewrite findIndex_None. unfold count_id. split.
  - apply nil_length_inv.
  - by intros ->.
Qed.

Lemma count_id_self (movie : item) : count_id movie [movie] = 1.
Proof.
  unfold count_id. rewrite filter_cons_True; [done|].
  unfold same_id. apply String.eqb_refl.
Qed.

Lemma count_id_delete (movie : item) (l : list item) (i : nat) :
  findIndex (same_id movie) l = Some i →
  count_id movie l = S (count_id movie (delete i l)).
Proof.
  intros Hi. apply findIndex_Some in Hi as (x & Hx & Hp & _).
  rewrite <-(take_drop_middle l i x) at 1 by done.
  rewrite delete_take_drop, !count_id_app.
  change (x :: drop (S i) l) with ([x] ++ drop (S i) l).
  rewrite count_id_app. unfold count_id at 2.
  rewrite filter_cons_True by done. simpl. lia.
Qed.

(** The two requests leave the page as it is. *)
Lemma api_run (path : string) (opts : options) (st : page) :
  api path opts st = (apiRequest (localStorage st) path opts, st).
Proof. reflexivity. Qed.

Lemma set_entries_entries (c : collection) (l : list item) (st : page) :
  entries c (set_entries c l st) = l.
Proof. by destruct c. Qed.

#[local] Arguments apiRequest : simpl never.

(** Unfolds one run of [toggle] down to the outcome of its request. *)
Ltac run_toggle :=
  unfold toggle, issued_call, addOnServer, removeOnServer, query, try_catch,
    updateStorage, setItem, alert, set_textContent, modify, gets, lift, throw,
    api, mbind, mret, M_bind, M_ret in *;
  simpl in *.

(** C1: when the server call of a [toggle] fails, the cart, the bookmarks and
    local storage are as before the invocation, no [setItem] is called and no
    button text changes; the failure message is shown. *)
Theorem toggle_failure_keeps_state (c : collection) (movie : item) (st : page)
  (e : error) :
  issued_call c movie st = Some (Throw e) →
  cart (toggle c movie st).2 = cart st ∧
  bookmarks (toggle c movie st).2 = bookmarks st ∧
  localStorage (toggle c movie st).2 = localStorage st ∧
  setItem_calls (toggle c movie st).2 = setItem_calls st ∧
  textContent (toggle c movie st).2 = textContent st ∧
  alerts (toggle c movie st).2
  = alerts st ++ [if String.eqb (message e) "" then failure_text c
                  else message e].
Proof.
  run_toggle.
  destruct (querySelector (button_selector c movie)) as [e'| |b]; [done|..];
    destruct (findIndex (same_id movie) (entries c st)) as [i|];
    simpl; intros [= ->]; done.
Qed.

(** C2, as the code has it: after a [toggle] whose server call succeeds, a
    movie whose id was in no entry is the last entry and the only one with
    its id; for a movie whose id was in some entry, the first such entry is
    gone, so one entry fewer has its id: none when there was exactly one.
    The other collection is untouched. *)
Theorem toggle_success_entries (c : collection) (movie : item) (st : page)
  (v : value) :
  issued_call c movie st = Some (Return v) →
  (count_id movie (entries c st) = 0 →
   entries c (toggle c movie st).2 = entries c st ++ [movie] ∧
   count_id movie (entries c (toggle c movie st).2) = 1) ∧
  (0 < count_id movie (entries c st) →
   ∃ i, findIndex (same_id movie) (entries c st) = Some i ∧
        entries c (toggle c movie st).2 = delete i (entries c st) ∧
        S (count_id movie (entries c (toggle c movie st).2))
        = count_id movie (entries c st)) ∧
  (count_id movie (entries c st) = 1 →
   count_id movie (entries c (toggle c movie st).2) = 0) ∧
  (∀ c', c' ≠ c → entries c' (toggle c movie st).2 = entries c' st).
Proof.
  intros Hcall.
  assert (∀ c', entries c' (toggle c movie st).2 =
                if decide (c' = c) then
                  match findIndex (same_id movie) (entries c st) with
                  | None => entries c st ++ [movie]
                  | Some i => delete i (entries c st)
                  end
                else entries c' st) as Hrun.
  { intros c'. revert Hcall. run_toggle.
    destruct (querySelector (button_selector c movie)) as [e'| |b]; [done|..];
      destruct (findIndex (same_id movie) (entries c st)) as [i|];
      simpl; intros [= ->]; simpl;
      destruct c, c'; simpl; try done. }
  split_and!.
  - intros H0. rewrite Hrun, decide_True by done.
    apply count_id_zero in H0 as H1. rewrite H1. split; [done|].
    rewrite count_id_app, H0. apply count_id_self.
  - intros Hpos.
    destruct (findIndex (same_id movie) (entries c st)) as [i|] eqn:Hi.
    + exists i. rewrite Hrun, decide_True by done. split_and!; [done..|].
      symmetry. by apply count_id_delete.
    + apply count_id_zero in Hi. lia.
  - intros H1. rewrite Hrun, decide_True by done.
    destruct (findIndex (same_id movie) (entries c st)) as [i|] eqn:Hi.
    + apply count_id_delete in Hi. lia.
    + apply count_id_zero in Hi. lia.
  - intros c' Hne. by rewrite Hrun, decide_False.
Qed.

(** C8, what the code does: when the server call succeeds and no button
    matches, the entry is added or removed, and the assignment to
    [button.textContent] then raises a TypeError that the [catch] reports:
    [updateStorage] is not reached, local storage is not written. *)
Theorem toggle_without_button (c : collection) (movie : item) (st : page)
  (v : value) :
  querySelector (button_selector c movie) = NoMatch →
  issued_call c movie st = Some (Return v) →
  entries c (toggle c movie st).2
  = match findIndex (same_id movie) (entries c st) with
    | None => entries c st ++ [movie]
    | Some i => delete i (entries c st)
    end ∧
  setItem_calls (toggle c movie st).2 = setItem_calls st ∧
  localStorage (toggle c movie st).2 = localStorage st ∧
  alerts (toggle c movie st).2
  = alerts st ++ [if String.eqb null_property_message "" then failure_text c
                  else null_property_message].
Proof.
  intros Hq. run_toggle. rewrite Hq.
  destruct (findIndex (same_id movie) (entries c st)) as [i|];
    simpl; intros [= ->]; simpl; by destruct c.
Qed.

(** With a button in the page, a successful [toggle] writes both snapshots:
    the two [setItem] calls are the last ones, for [cart], then for
    [bookmarks], with the arrays as they are after the change. *)
Lemma toggle_with_button_persists (c : collection) (movie : item) (st : page)
  (v : value) (b : nat) :
  querySelector (button_selector c movie) = Match b →
  issued_call c movie st = Some (Return v) →
  setItem_calls (toggle c movie st).2
  = setItem_calls st ++
    [("cart", JSON_stringify (VArr (item_value <$> cart (toggle c movie st).2)));
     ("bookmarks",
      JSON_stringify (VArr (item_value <$> bookmarks (toggle c movie st).2)))] ∧
  textContent (toggle c movie st).2 !! b
  = Some (match findIndex (same_id movie) (entries c st) with
          | None => remove_glyph
          | Some _ => default_glyph c
          end).
Proof.
  intros Hq. run_toggle. rewrite Hq.
  destruct (findIndex (same_id movie) (entries c st)) as [i|];
    simpl; intros [= ->]; simpl; destruct c; simpl;
    rewrite <-?app_assoc; simpl; by rewrite lookup_insert_eq.
Qed.

(** [toggle] keeps ids unique: a collection in which no two entries have the
    same id (as strings) is one after any [toggle]. *)
Lemma toggle_keeps_unique (c : collection) (movie : item) (st : page) :
  (∀ m, count_id m (entries c st) ≤ 1) →
  ∀ m, count_id m (entries c (toggle c movie st).2) ≤ 1.
Proof.
  intros Huniq m.
  assert (entries c (toggle c movie st).2 = entries c st ∨
          (findIndex (same_id movie) (entries c st) = None ∧
           entries c (toggle c movie st).2 = entries c st ++ [movie]) ∨
          (∃ i, entries c (toggle c movie st).2 = delete i (entries c st)))
    as [-> | [[Hnone ->] | [i ->]]]; [|done| |].
  { run_toggle.
    destruct (querySelector (button_selector c movie)) as [e'| |b]; [by left|..];
      destruct (findIndex (same_id movie) (entries c st)) as [i|];
      simpl;
      match goal with
      | |- context [apiRequest ?s ?p ?o] => destruct (apiRequest s p o)
      end; simpl; destruct c; simpl; eauto. }
  - rewrite count_id_app.
    destruct (String.eqb (ToString (id m)) (ToString (id movie))) eqn:Hsame.
    + apply String.eqb_eq in Hsame.
      assert (count_id m (entries c st) = count_id movie (entries c st)) as ->.
      { unfold count_id, same_id. by rewrite Hsame. }
      apply count_id_zero in Hnone. rewrite Hnone.
      pose proof (length_filter (λ it, same_id m it = true) [movie]) as Hle.
      unfold count_id. simpl in *. lia.
    + specialize (Huniq m).
      assert (count_id m [movie] = 0) as ->; [|lia].
      unfold count_id. rewrite filter_cons_False; [done|].
      unfold same_id. rewrite String.eqb_sym. by rewrite Hsame.
  - specialize (Huniq m). revert Huniq.
    destruct (decide (i < length (entries c st))) as [Hlt|Hge].
    + destruct (lookup_lt_is_Some_2 _ _ Hlt) as [x Hx].
      rewrite <-(take_drop_middle (entries c st) i x) at 1 by done.
      rewrite delete_take_drop, !count_id_app.
      change (x :: drop (S i) (entries c st))
        with ([x] ++ drop (S i) (entries c st)).
      rewrite count_id_app. lia.
    + rewrite delete_take_drop, take_ge, drop_ge by lia.
      by rewrite app_nil_r.
Qed.

(** ** The sort pipeline *)

(** *** [Array.prototype.sort] under a consistent comparison function *)

Section Sorting.

Context {A : Type}.
Variable comparefn : A → A → number.
Variable le : A → A → Prop.
Hypothesis le_trans : ∀ x y z, le x y → le y z → le x z.
Hypothesis le_total : ∀ x y, le x y ∨ le y x.
Hypothesis comparefn_le : ∀ x y, SortCompare (comparefn x y) ≠ Gt ↔ le x y.

Lemma sort_insert_perm (x : A) (l : list A) :
  sort_insert comparefn x l ≡ₚ x :: l.
Proof.
  induction l as [|y l IH]; [done|]. simpl.
  destruct (SortCompare (comparefn x y)); try done.
  rewrite IH. apply Permutation_swap.
Qed.

Lemma Array_sort_perm (l : list A) : Array_sort comparefn l ≡ₚ l.
Proof.
  induction l as [|x l IH]; [done|]. simpl.
  by rewrite sort_insert_perm, IH.
Qed.

Lemma sort_insert_sorted (x : A) (l : list A) :
  StronglySorted le l → StronglySorted le (sort_insert comparefn x l).
Proof using le_trans le_total comparefn_le.
  induction 1 as [|y l Hs IH Hall]; simpl.
  - repeat constructor.
  - destruct (SortCompare (comparefn x y)) eqn:Hc.
    + assert (le x y) as Hxy by (apply comparefn_le; by rewrite Hc).
      constructor; [by constructor|]. constructor; [done|].
      eapply Forall_impl; [exact Hall|]. intros z. by apply le_trans.
    + assert (le x y) as Hxy by (apply comparefn_le; by rewrite Hc).
      constructor; [by constructor|]. constructor; [done|].
      eapply Forall_impl; [exact Hall|]. intros z. by apply le_trans.
    + assert (le y x) as Hyx.
      { destruct (le_total x y) as [Hxy|]; [|done].
        apply comparefn_le in Hxy. by rewrite Hc in Hxy. }
      constructor; [done|].
      rewrite sort_insert_perm. by constructor.
Qed.

Lemma Array_sort_sorted (l : list A) : StronglySorted le (Array_sort comparefn l).
Proof using le_trans le_total comparefn_le.
  induction l as [|x l IH]; simpl; [constructor|].
  by apply sort_insert_sorted.
Qed.

(** A sorted array is left as it is. *)
Lemma Array_sort_fixed (l : list A) :
  StronglySorted le l → Array_sort comparefn l = l.
Proof using comparefn_le.
  induction 1 as [|x l Hs IH Hall]; [done|]. simpl. rewrite IH.
  destruct l as [|y l]; [done|]. simpl.
  apply Forall_cons_1 in Hall as [Hxy _].
  apply comparefn_le in Hxy.
  by destruct (SortCompare (comparefn x y)).
Qed.

Lemma Array_sort_twice (l : list A) :
  Array_sort comparefn (Array_sort comparefn l) = Array_sort comparefn l.
Proof using le_trans le_total comparefn_le.
  apply Array_sort_fixed, Array_sort_sorted.
Qed.

(** Stability: the elements that are equivalent to a given one for the order
    come out in the order they came in. *)
Lemma sort_insert_equivalent `{∀ x y, Decision (le x y)} (k x : A)
  (l : list A) :
  filter (λ y, le k y ∧ le y k) (sort_insert comparefn x l)
  = filter (λ y, le k y ∧ le y k) (x :: l).
Proof using le_trans comparefn_le.
  induction l as [|y l IH]; [done|]. simpl.
  destruct (SortCompare (comparefn x y)) eqn:Hc; try done.
  destruct (decide (le k y ∧ le y k)) as [Hy|Hy];
    destruct (decide (le k x ∧ le x k)) as [Hx|Hx].
  - assert (le x y) as Hxy by (eapply le_trans; [apply Hx|apply Hy]).
    apply comparefn_le in Hxy. by rewrite Hc in Hxy.
  - rewrite (filter_cons_True _ y) by done. rewrite IH.
    by rewrite !(filter_cons_False _ x), (filter_cons_True _ y).
  - rewrite (filter_cons_False _ y) by done. rewrite IH.
    by rewrite !(filter_cons_True _ x), (filter_cons_False _ y).
  - rewrite (filter_cons_False _ y) by done. rewrite IH.
    by rewrite !(filter_cons_False _ x), (filter_cons_False _ y).
Qed.

Lemma Array_sort_stable `{∀ x y, Decision (le x y)} (k : A) (l : list A) :
  filter (λ y, le k y ∧ le y k) (Array_sort comparefn l)
  = filter (λ y, le k y ∧ le y k) l.
Proof using le_trans comparefn_le.
  induction l as [|x l IH]; [done|]. simpl.
  rewrite sort_insert_equivalent.
  destruct (decide (le k x ∧ le x k)).
  - rewrite !(filter_cons_True _ x) by done. by rewrite IH.
  - rewrite !(filter_cons_False _ x) by done. by rewrite IH.
Qed.

End Sorting.

(** *** The comparison function of [sortFilms] is consistent *)

Lemma or_zero_spec (n : number) :
  or_zero n = match n with NaN => num_of_Z 0 | _ => n end.
Proof.
  unfold or_zero. destruct n as [| |q|]; try done. simpl.
  destruct (q ?= 0)%Qc eqn:Hq; try done.
  apply Qceq_alt in Hq as ->. done.
Qed.

Lemma num_le_trans (x y z : number) : num_le x y → num_le y z → num_le x z.
Proof.
  destruct x, y, z; simpl; try done. apply Qcle_trans.
Qed.

Lemma num_le_total (x y : number) :
  x ≠ NaN → y ≠ NaN → num_le x y ∨ num_le y x.
Proof.
  destruct x as [| |p|], y as [| |q|]; simpl; try done;
    try (intros _ _; by left); try (intros _ _; by right).
  intros _ _. destruct (Qclt_le_dec p q) as [Hlt|Hle]; [left|by right].
  by apply Qclt_le_weak.
Qed.

Lemma SortCompare_Fin (d : Qc) : SortCompare (Fin d) = Gt ↔ (0 < d)%Qc.
Proof.
  unfold SortCompare, num_ltb, num_of_Z.
  change (Q2Qc (inject_Z 0)) with 0%Qc.
  rewrite (Qclt_alt 0 d).
  destruct (d ?= 0)%Qc eqn:Hd.
  - apply Qceq_alt in Hd as ->. by compute.
  - apply Qclt_alt in Hd. split; [done|]. intros H0%Qclt_alt.
    exfalso. eapply Qclt_not_le; [exact Hd|]. by apply Qclt_le_weak.
  - destruct (0 ?= d)%Qc; split; done.
Qed.

Lemma SortCompare_num_sub (x y : number) :
  x ≠ NaN → y ≠ NaN → SortCompare (num_sub x y) ≠ Gt ↔ num_le x y.
Proof.
  destruct x as [| |p|], y as [| |q|]; simpl; try done;
    try (intros _ _; by compute).
  intros _ _. rewrite SortCompare_Fin.
  unfold Qcminus. rewrite <-Qclt_minus_iff.
  split; [apply Qcnot_lt_le|apply Qcle_not_lt].
Qed.

Lemma price_key_not_nan (a : film) : price_key a ≠ NaN.
Proof. unfold price_key. by destruct (parseFloat _). Qed.

Lemma price_key_or_zero (a : film) :
  or_zero (parseFloat (nullish (obj_get a "price") (VStr ""))) = price_key a.
Proof. unfold price_key. rewrite or_zero_spec. by destruct (parseFloat _). Qed.

Lemma units_le_ltb (u v : list N) : units_le u v ↔ units_ltb v u = false.
Proof.
  revert v. induction u as [|x u IH]; intros [|y v]; simpl; try done.
  destruct (N.ltb_spec y x) as [Hyx|Hxy].
  - split; [lia|done].
  - destruct (N.ltb_spec x y) as [Hlt|Hge].
    + split; [done|]. intros _. by left.
    + rewrite <-IH. split.
      * intros [?|[_ ?]]; [lia|done].
      * intros ?. right. split; [lia|done].
Qed.

Lemma units_ltb_asym (u v : list N) :
  units_ltb u v = true → units_ltb v u = false.
Proof.
  revert v. induction u as [|x u IH]; intros [|y v]; simpl; try done.
  destruct (N.ltb_spec x y) as [Hxy|Hyx].
  - intros _. destruct (N.ltb_spec y x); [lia|done].
  - destruct (N.ltb_spec y x); [done|]. apply IH.
Qed.

Lemma units_le_trans (u v w : list N) :
  units_le u v → units_le v w → units_le u w.
Proof.
  revert v w. induction u as [|x u IH]; intros [|y v] [|z w]; simpl;
    try done.
  intros [Hxy|[-> Huv]] [Hyz|[-> Hvw]].
  - left. lia.
  - by left.
  - by left.
  - right. split; [done|]. by apply (IH v).
Qed.

Lemma units_le_total (u v : list N) : units_le u v ∨ units_le v u.
Proof.
  revert v. induction u as [|x u IH]; intros [|y v]; simpl;
    [by left|by left|by right|].
  destruct (N.lt_trichotomy x y) as [?|[->|?]].
  - left. by left.
  - destruct (IH v); [left|right]; right; done.
  - right. by left.
Qed.

Lemma code_unit_le_ltb (s1 s2 : string) :
  code_unit_le s1 s2 ↔ string_ltb s2 s1 = false.
Proof. apply units_le_ltb. Qed.

Lemma string_ltb_asym (s1 s2 : string) :
  string_ltb s1 s2 = true → string_ltb s2 s1 = false.
Proof. apply units_ltb_asym. Qed.

Lemma compare_films_le (field : string) (a b : film) :
  SortCompare (compare_films field a b) ≠ Gt ↔ film_le field a b.
Proof.
  unfold compare_films, film_le.
  destruct (String.eqb_spec field "price") as [->|_].
  - rewrite !price_key_or_zero.
    apply SortCompare_num_sub; apply price_key_not_nan.
  - fold (text_key field a) (text_key field b).
    rewrite code_unit_le_ltb.
    destruct (string_ltb (text_key field a) (text_key field b)) eqn:Hab.
    + rewrite (string_ltb_asym _ _ Hab).
      split; [done|]. intros _. by compute.
    + destruct (string_ltb (text_key field b) (text_key field a));
        split; try done; by compute.
Qed.

Lemma film_le_trans (field : string) (a b c : film) :
  film_le field a b → film_le field b c → film_le field a c.
Proof.
  unfold film_le. destruct (String.eqb field "price").
  - apply num_le_trans.
  - apply units_le_trans.
Qed.

Lemma film_le_total (field : string) (a b : film) :
  film_le field a b ∨ film_le field b a.
Proof.
  unfold film_le. destruct (String.eqb field "price").
  - apply num_le_total; apply price_key_not_nan.
  - apply units_le_total.
Qed.

(** *** [sortFilms] *)

Lemma sortFilms_run (h : gmap nat (list film)) (films : nat) (field : string)
  (arr : list film) :
  h !! films = Some arr →
  sortFilms h films field
  = Some (fresh (dom h),
          <[fresh (dom h) := Array_sort (compare_films field) arr]> h).
Proof.
  intros Harr. unfold sortFilms, spread, sort_in_place. rewrite Harr. simpl.
  rewrite lookup_insert_eq. simpl. by rewrite insert_insert_eq.
Qed.

(** C3: [sortFilms] returns a new array and leaves every array of the store,
    its input among them, as it was; the new array holds the films of the
    input, in ascending order of the numeric parse of their price (a
    non-numeric parse counting as 0) when the field is [price], and in
    ascending order of the lower-cased text of the field otherwise, texts
    being compared code unit by code unit; a value that is missing is read
    as the empty string, and a value that is there is read as it is. *)
Theorem sortFilms_sorted (h : gmap nat (list film)) (films : nat)
  (field : string) (arr : list film) :
  h !! films = Some arr →
  ∃ (copy : nat) (sorted : list film),
    sortFilms h films field = Some (copy, <[copy := sorted]> h) ∧
    h !! copy = None ∧
    (∀ a, a ≠ copy → (<[copy := sorted]> h) !! a = h !! a) ∧
    (<[copy := sorted]> h) !! films = Some arr ∧
    sorted ≡ₚ arr ∧
    (field = "price" →
     StronglySorted (λ a b, num_le (price_key a) (price_key b)) sorted) ∧
    (field ≠ "price" →
     StronglySorted
       (λ a b, code_unit_le (text_key field a) (text_key field b)) sorted) ∧
    (∀ a, obj_get a field = VUndefined ∨ obj_get a field = VNull →
          text_key field a = toLowerCase "" ∧
          (field = "price" → parseFloat_string "" = NaN →
           price_key a = num_of_Z 0)) ∧
    (∀ a v, obj_get a field = v → v ≠ VUndefined → v ≠ VNull →
            text_key field a = toLowerCase (ToString v) ∧
            (field = "price" →
             price_key a = match parseFloat_string (ToString v) with
                           | NaN => num_of_Z 0
                           | n => n
                           end)).
Proof.
  intros Harr.
  exists (fresh (dom h)), (Array_sort (compare_films field) arr).
  assert (h !! fresh (dom h) = None) as Hfresh.
  { apply not_elem_of_dom, is_fresh. }
  assert (StronglySorted (film_le field)
            (Array_sort (compare_films field) arr)) as Hsorted.
  { apply Array_sort_sorted.
    - apply film_le_trans.
    - apply film_le_total.
    - apply compare_films_le. }
  split_and!.
  - by apply sortFilms_run.
  - done.
  - intros a Ha. by rewrite lookup_insert_ne.
  - rewrite lookup_insert_ne; [done|]. intros <-. congruence.
  - apply Array_sort_perm.
  - intros ->. exact Hsorted.
  - intros Hne. apply String.eqb_neq in Hne.
    unfold film_le in Hsorted. by rewrite Hne in Hsorted.
  - intros a Hmissing. unfold text_key, price_key, parseFloat. split.
    + by destruct Hmissing as [-> | ->].
    + intros -> Hparse. destruct Hmissing as [-> | ->]; simpl; by rewrite Hparse.
  - intros a v Hv Hu Hn. unfold text_key, price_key, parseFloat. split.
    + rewrite Hv. by destruct v.
    + intros ->. rewrite Hv. by destruct v.
Qed.

(** C4: sorting the result of [sortFilms] again, by the same field, gives an
    array with the same films in the same order. *)
Theorem sortFilms_idempotent (h : gmap nat (list film)) (films : nat)
  (field : string) (arr : list film) :
  h !! films = Some arr →
  ∃ (copy1 copy2 : nat) (h1 h2 : gmap nat (list film)) (sorted : list film),
    sortFilms h films field = Some (copy1, h1) ∧
    sortFilms h1 copy1 field = Some (copy2, h2) ∧
    h1 !! copy1 = Some sorted ∧
    h2 !! copy2 = Some sorted ∧
    h2 !! copy1 = Some sorted.
Proof.
  intros Harr.
  pose proof (sortFilms_run h films field arr Harr) as Hrun1.
  set (copy1 := fresh (dom h)) in *.
  set (sorted := Array_sort (compare_films field) arr) in *.
  set (h1 := <[copy1 := sorted]> h) in *.
  assert (h1 !! copy1 = Some sorted) as H1 by apply lookup_insert_eq.
  pose proof (sortFilms_run h1 copy1 field sorted H1) as Hrun2.
  assert (Array_sort (compare_films field) sorted = sorted) as Hfix.
  { apply (Array_sort_twice _ (film_le field)).
    - apply film_le_trans.
    - apply film_le_total.
    - apply compare_films_le. }
  rewrite Hfix in Hrun2.
  exists copy1, (fresh (dom h1)), h1, (<[fresh (dom h1) := sorted]> h1), sorted.
  split_and!; try done.
  - apply lookup_insert_eq.
  - rewrite lookup_insert_ne; [done|]. intros Heq.
    pose proof (is_fresh (dom h1)) as Hnew. rewrite Heq in Hnew.
    apply Hnew, elem_of_dom. by exists sorted.
Qed.

(** ** Image resolution *)

Lemma titleMapping_truthy (t : string) (v : value) :
  own_get titleMapping t = Some v → truthy v = true.
Proof.
  unfold titleMapping. cbn [own_get].
  repeat (destruct (String.eqb _ t); [by intros [= <-]|]). done.
Qed.

Lemma first_entry_truthy (k : string) (v : value) :
  first_entry k titleMapping = Some v → truthy v = true.
Proof.
  unfold titleMapping. cbn [first_entry].
  repeat (destruct (String.eqb _ k); [by intros [= <-]|]). done.
Qed.

(** An embedded payload that does not start with [data:image/] is given the
    default MIME prefix. *)
Lemma imageSrc_raw_payload (f : film) (s : string) :
  obj_get f "movie_base64" = VStr s → s ≠ "" →
  String.prefix "data:image/" s = false →
  imageSrc f = Return (VStr ("data:image/jpeg;base64," +:+ s)).
Proof.
  intros Hb Hne Hp. unfold imageSrc. rewrite Hb. simpl.
  apply String.eqb_neq in Hne as ->. simpl. by rewrite Hp.
Qed.

(** An embedded payload that starts with [data:image/] is used as it is. *)
Lemma imageSrc_data_uri (f : film) (s : string) :
  obj_get f "movie_base64" = VStr s →
  String.prefix "data:image/" s = true →
  imageSrc f = Return (VStr s).
Proof.
  intros Hb Hp. unfold imageSrc. rewrite Hb. simpl.
  destruct (String.eqb_spec s "") as [->|_]; [done|]. simpl. by rewrite Hp.
Qed.

(** Without a payload, a title that is a key of the table gives its path. *)
Lemma imageSrc_exact_title (f : film) (t : string) (v : value) :
  truthy (obj_get f "movie_base64") = false →
  obj_get f "title" = VStr t →
  own_get titleMapping t = Some v →
  imageSrc f = Return v.
Proof.
  intros Hb Ht Hown. unfold imageSrc, getImagePathForFilm.
  rewrite Hb, Ht. simpl ToString. unfold obj_get. rewrite Hown.
  by rewrite (titleMapping_truthy t v).
Qed.

(** Without a payload and without an exact match, the first key that equals
    the title up to case gives its path, and the placeholder is the answer
    when there is none, provided the title does not name a member of
    [Object.prototype]. *)
Lemma imageSrc_other_title (f : film) (t : string) :
  truthy (obj_get f "movie_base64") = false →
  obj_get f "title" = VStr t →
  own_get titleMapping t = None →
  inherited t = None →
  imageSrc f = Return (default (VStr placeholder)
                         (first_entry (toLowerCase t) titleMapping)).
Proof.
  intros Hb Ht Hown Hinh. unfold imageSrc, getImagePathForFilm.
  rewrite Hb, Ht. simpl ToString. unfold obj_get. rewrite Hown, Hinh.
  cbn -[first_entry].
  by destruct (first_entry (toLowerCase t) titleMapping).
Qed.

(** A title that names a member of [Object.prototype] is answered with that
    member: the lookup [titleMapping[title]] finds it on the prototype. *)
Lemma imageSrc_inherited_title (f : film) (t : string) (v : value) :
  truthy (obj_get f "movie_base64") = false →
  obj_get f "title" = VStr t →
  inherited t = Some v →
  imageSrc f = Return v ∧ v ≠ VStr placeholder.
Proof.
  intros Hb Ht Hinh. unfold imageSrc, getImagePathForFilm.
  rewrite Hb, Ht. simpl ToString. unfold obj_get.
  assert (own_get titleMapping t = None) as ->.
  { destruct (own_get titleMapping t) as [w|] eqn:Hown; [|done].
    exfalso. revert Hown Hinh. unfold titleMapping. cbn [own_get].
    repeat match goal with
           | |- context [String.eqb ?k t] =>
               destruct (String.eqb_spec k t) as [<-|_];
               [intros _ Hinh; by vm_compute in Hinh|]
           end.
    done. }
  rewrite Hinh. unfold inherited in Hinh.
  destruct (String.eqb t "__proto__"); [by simplify_eq|].
  destruct (existsb _ _); by simplify_eq.
Qed.

(** C9, where the code departs from it: the record [{ title: 'constructor' }]
    has no embedded payload and its title is no key of the table, yet its
    image source is not the placeholder path but the function
    [Object.prototype.constructor], whatever the engine's built-ins
    compute. *)
Theorem imageSrc_constructor_title :
  obj_get [("title", VStr "constructor")] "movie_base64" = VUndefined ∧
  own_get titleMapping "constructor" = None ∧
  imageSrc [("title", VStr "constructor")] = Return (VNative "constructor") ∧
  imageSrc [("title", VStr "constructor")] ≠ Return (VStr placeholder).
Proof.
  assert (imageSrc [("title", VStr "constructor")]
          = Return (VNative "constructor")) as Heq.
  { by apply (imageSrc_inherited_title _ "constructor"). }
  split_and!; [done|done|done|by rewrite Heq].
Qed.

(** The older copy of the script differs only on payloads that are a data
    URI of another kind. *)
Lemma imageSrc_part_000_agrees (f : film) :
  (∀ s, obj_get f "movie_base64" = VStr s →
        String.prefix "data:" s = true → String.prefix "data:image/" s = true) →
  imageSrc_part_000 f = imageSrc f.
Proof.
  intros Hs. unfold imageSrc_part_000, imageSrc.
  destruct (obj_get f "movie_base64") as [| | | |s| | |]; try done.
  specialize (Hs s eq_refl).
  destruct (String.prefix "data:image/" s); [done|].
  destruct (String.prefix "data:" s); [|done]. by specialize (Hs eq_refl).
Qed.

(** ** Further properties of the stores and of the sort *)

(** When the request of [fetchCartFromServer] or [fetchBookmarksFromServer]
    fails, the page is left as it is and the local entries are returned. *)
Lemma fetchFromServer_failure (c : collection) (st : page) (e : error) :
  apiRequest (localStorage st) (endpoint c) no_options = Throw e →
  fetchFromServer c st = (Return (entries c st), st).
Proof.
  intros Hcall.
  unfold fetchFromServer, try_catch, api, lift, gets, mbind, M_bind. simpl.
  by rewrite Hcall.
Qed.

Lemma project_all_rows (rows : list value) :
  Forall (λ row, row ≠ VUndefined ∧ row ≠ VNull) rows →
  project_all rows
  = Return ((λ row,
               {| id := prop row "movie_id";
                  title := prop row "title";
                  author := if truthy (prop row "author")
                            then prop row "author" else VStr "";
                  price := if truthy (prop row "price")
                           then prop row "price" else VStr "" |}) <$> rows).
Proof.
  induction 1 as [|row rows [Hu Hn] _ IH]; [done|].
  simpl. rewrite IH. by destruct row.
Qed.

(** When it succeeds with an array of rows, none of them [null] or
    [undefined], the collection becomes the array of their projections, in
    order: the id is the row's [movie_id], the title its [title], the author
    and the price its [author] and [price] when they are truthy and the
    empty string otherwise. The other collection is untouched and both
    snapshots are written. *)
Lemma fetchFromServer_success (c : collection) (st : page)
  (rows : list value) :
  apiRequest (localStorage st) (endpoint c) no_options = Return (VArr rows) →
  Forall (λ row, row ≠ VUndefined ∧ row ≠ VNull) rows →
  entries c (fetchFromServer c st).2
  = (λ row,
       {| id := prop row "movie_id";
          title := prop row "title";
          author := if truthy (prop row "author")
                    then prop row "author" else VStr "";
          price := if truthy (prop row "price")
                   then prop row "price" else VStr "" |}) <$> rows ∧
  (fetchFromServer c st).1 = Return (entries c (fetchFromServer c st).2) ∧
  (∀ c', c' ≠ c → entries c' (fetchFromServer c st).2 = entries c' st) ∧
  setItem_calls (fetchFromServer c st).2
  = setItem_calls st ++
    [("cart",
      JSON_stringify (VArr (item_value <$> cart (fetchFromServer c st).2)));
     ("bookmarks",
      JSON_stringify
        (VArr (item_value <$> bookmarks (fetchFromServer c st).2)))].
Proof.
  intros Hcall Hrows.
  unfold fetchFromServer, try_catch, api, lift, gets, mbind, M_bind,
    updateStorage, setItem, modify, mbind, M_bind. simpl.
  rewrite Hcall, (project_all_rows rows Hrows). simpl.
  destruct c; simpl; rewrite <-?app_assoc; split_and!; try done;
    by intros [].
Qed.

(** [sortFilms] is stable: the films that are equivalent to a given film for
    the order of the field are in the result in the order of the input. *)
Lemma sortFilms_stable (h : gmap nat (list film)) (films : nat)
  (field : string) (arr : list film) (k : film) :
  h !! films = Some arr →
  ∃ (copy : nat) (sorted : list film),
    sortFilms h films field = Some (copy, <[copy := sorted]> h) ∧
    filter (λ a, film_le field k a ∧ film_le field a k) sorted
    = filter (λ a, film_le field k a ∧ film_le field a k) arr.
Proof.
  intros Harr.
  exists (fresh (dom h)), (Array_sort (compare_films field) arr).
  split; [by apply sortFilms_run|].
  apply Array_sort_stable.
  - apply film_le_trans.
  - apply compare_films_le.
Qed.

(** ** More on the session forms *)

Lemma filter_active_snoc (l : list string) :
  existsb (String.eqb "active") l = false →
  filter (λ c, c ≠ "active") (l ++ ["active"]) = l.
Proof.
  intros H. rewrite filter_app, filter_absent by done.
  rewrite filter_cons_False by (by intros []). apply app_nil_r.
Qed.

Lemma contains_add_other (cls cls' : string) (e : element) :
  cls ≠ cls' → contains cls (classList_add cls' e) = contains cls e.
Proof.
  intros Hne. unfold classList_add. destruct (contains cls' e); [done|].
  apply eq_true_iff_eq. rewrite !contains_true. simpl.
  rewrite elem_of_app, list_elem_of_singleton.
  split; [by intros [?|?]|by left].
Qed.

Lemma deactivate_twice (e : element) : deactivate (deactivate e) = deactivate e.
Proof.
  unfold deactivate at 2.
  destruct (contains "form" e) eqn:Hf.
  - destruct (contains "active" e) eqn:Ha.
    + unfold deactivate. rewrite !contains_remove, Hf, Ha. done.
    + unfold deactivate. by rewrite Hf, Ha.
  - unfold deactivate. by rewrite Hf.
Qed.

(** A deactivated form that is activated and deactivated again is as it
    was. *)
Lemma deactivate_add_form (e : element) :
  contains "form" e = true →
  deactivate (classList_add "active" (deactivate e)) = deactivate e.
Proof.
  intros Hf.
  pose proof (deactivate_inactive e Hf) as Ha.
  pose proof (deactivate_form e) as Hf'. rewrite Hf in Hf'.
  unfold deactivate at 1.
  rewrite contains_add_other, Hf', contains_add by done.
  destruct (deactivate e) as [i l]. unfold classList_add. rewrite Ha.
  unfold classList_remove. simpl. by rewrite filter_active_snoc.
Qed.

Lemma add_deactivate_add (e : element) :
  classList_add "active" (deactivate (classList_add "active" (deactivate e)))
  = classList_add "active" (deactivate e).
Proof.
  destruct (contains "form" e) eqn:Hf.
  - by rewrite deactivate_add_form.
  - assert (deactivate e = e) as -> by (unfold deactivate; by rewrite Hf).
    assert (contains "form" (classList_add "active" e) = false) as Hf'.
    { by rewrite contains_add_other. }
    assert (deactivate (classList_add "active" e) = classList_add "active" e)
      as -> by (unfold deactivate; by rewrite Hf').
    unfold classList_add at 1. by rewrite contains_add.
Qed.

Lemma getElementById_alter (formId : string) (g : element → element)
  (t : nat) (doc : list element) :
  (∀ e, el_id (g e) = el_id e) →
  getElementById formId (alter g t doc) = getElementById formId doc.
Proof.
  intros Hg. revert t. induction doc as [|e doc IH]; intros t; [done|].
  destruct t as [|t]; simpl.
  - by rewrite Hg.
  - by rewrite <-(IH t).
Qed.

Lemma classList_add_id (cls : string) (e : element) :
  el_id (classList_add cls e) = el_id e.
Proof. unfold classList_add. by destruct (contains cls e). Qed.

Lemma getElementById_showForm (formId formId' : string) (doc : list element) :
  getElementById formId' (showForm formId doc) = getElementById formId' doc.
Proof.
  rewrite showForm_unfold.
  destruct (getElementById formId doc) as [t|].
  - rewrite getElementById_alter by apply classList_add_id.
    apply getElementById_deactivate.
  - apply getElementById_deactivate.
Qed.

(** [showForm] is idempotent. *)
Theorem showForm_idempotent (formId : string) (doc : list element) :
  showForm formId (showForm formId doc) = showForm formId doc.
Proof.
  rewrite (showForm_unfold formId (showForm formId doc)).
  rewrite getElementById_showForm, showForm_unfold.
  destruct (getElementById formId doc) as [t|] eqn:Ht.
  - apply list_eq. intros i.
    destruct (decide (t = i)) as [<-|Hne].
    + rewrite !list_lookup_alter_eq, list_lookup_fmap, list_lookup_alter_eq.
      rewrite list_lookup_fmap.
      destruct (doc !! t) as [e|]; [|done]. simpl.
      by rewrite add_deactivate_add.
    + rewrite !list_lookup_alter_ne by done.
      rewrite list_lookup_fmap, list_lookup_alter_ne by done.
      rewrite list_lookup_fmap.
      destruct (doc !! i) as [e|]; [|done]. simpl.
      by rewrite deactivate_twice.
  - rewrite <-list_fmap_compose. apply list_fmap_ext.
    intros i e _. simpl. apply deactivate_twice.
Qed.

(** The last switch wins: after [showForm(first)] on a form (or on an id that
    no element has), [showForm(second)] leaves the document as if only
    [showForm(second)] had been called. *)
Theorem showForm_last_wins (first second : string) (doc : list element) :
  (∀ t e, getElementById first doc = Some t → doc !! t = Some e →
          contains "form" e = true) →
  showForm second (showForm first doc) = showForm second doc.
Proof.
  intros Hform.
  assert (deactivate <$> showForm first doc = deactivate <$> doc) as Hd.
  { rewrite showForm_unfold.
    destruct (getElementById first doc) as [t|] eqn:Ht.
    - apply list_eq. intros i. rewrite !list_lookup_fmap.
      destruct (decide (t = i)) as [<-|Hne].
      + rewrite list_lookup_alter_eq, list_lookup_fmap.
        destruct (doc !! t) as [e|] eqn:He; [|done]. simpl.
        by rewrite deactivate_add_form by eauto.
      + rewrite list_lookup_alter_ne by done. rewrite list_lookup_fmap.
        destruct (doc !! i) as [e|]; [|done]. simpl.
        by rewrite deactivate_twice.
    - rewrite <-list_fmap_compose. apply list_fmap_ext.
      intros i e _. simpl. apply deactivate_twice. }
  rewrite (showForm_unfold second (showForm first doc)).
  rewrite getElementById_showForm, Hd. by rewrite showForm_unfold.
Qed.

(** ** The registration form *)

Lemma show_register_error_shown (msg : string) (st : register_page) :
  "show" ∈ error_classes (show_register_error msg st).
Proof.
  unfold show_register_error. cbn [error_classes].
  destruct (existsb (String.eqb "show") (error_classes st)) eqn:Hs.
  - apply existsb_exists in Hs as (c & Hin & Heq).
    apply String.eqb_eq in Heq as <-. by apply list_elem_of_In.
  - apply elem_of_app. right. apply list_elem_of_singleton. done.
Qed.

(** With two passwords that differ, the outcome does not depend on the
    gateway: the message is shown and nothing else changes. *)
Lemma register_mismatch (st : register_page) :
  password st ≠ confirmPassword st →
  register_submit st = show_register_error "Пароли не совпадают!" st.
Proof.
  intros Hne. unfold register_submit.
  apply String.eqb_neq in Hne as ->. done.
Qed.

(** A registration the server accepts clears the error area and switches to
    the login form: it is active when it exists, no other form is, and the
    inputs are left as they are. *)
Theorem register_success (st : register_page) (v : value) :
  password st = confirmPassword st →
  register_call st = Return v →
  error_text (register_submit st) = "" ∧
  ("show" ∉ error_classes (register_submit st)) ∧
  register_document (register_submit st)
  = showForm "loginForm" (register_document st) ∧
  (∀ t, getElementById "loginForm" (register_document st) = Some t →
        ∃ e, register_document (register_submit st) !! t = Some e ∧
             contains "active" e = true) ∧
  (∀ i e, register_document (register_submit st) !! i = Some e →
          contains "form" e = true → contains "active" e = true →
          getElementById "loginForm" (register_document st) = Some i).
Proof.
  intros Hpw Hcall. unfold register_submit.
  rewrite Hpw, String.eqb_refl, Hcall. simpl. split_and!.
  - done.
  - rewrite list_elem_of_filter. by intros [? _].
  - done.
  - intros t Ht. rewrite showForm_unfold, Ht.
    apply getElementById_Some in Ht as (e & He & _).
    exists (classList_add "active" (deactivate e)).
    rewrite list_lookup_alter_eq, list_lookup_fmap, He.
    split; [done|apply contains_add].
  - intros i e Hi Hf Ha. rewrite showForm_unfold in Hi.
    destruct (getElementById "loginForm" (register_document st))
      as [t|] eqn:Ht.
    + destruct (decide (t = i)) as [->|Hne]; [done|].
      rewrite list_lookup_alter_ne, list_lookup_fmap in Hi by done.
      destruct (register_document st !! i) as [e0|]; simplify_eq/=.
      rewrite deactivate_form in Hf.
      by rewrite (deactivate_inactive e0) in Ha.
    + rewrite list_lookup_fmap in Hi.
      destruct (register_document st !! i) as [e0|]; simplify_eq/=.
      rewrite deactivate_form in Hf.
      by rewrite (deactivate_inactive e0) in Ha.
Qed.

(** A registration the server refuses shows the server's message (the
    default text when it is empty) and leaves the forms and the inputs as
    they are: the registration form stays. *)
Theorem register_failure (st : register_page) (e : error) :
  password st = confirmPassword st →
  register_call st = Throw e →
  register_document (register_submit st) = register_document st ∧
  error_text (register_submit st)
  = (if String.eqb (message e) "" then "Ошибка регистрации" else message e) ∧
  ("show" ∈ error_classes (register_submit st)) ∧
  username (register_submit st) = username st ∧
  email (register_submit st) = email st ∧
  password (register_submit st) = password st ∧
  confirmPassword (register_submit st) = confirmPassword st.
Proof.
  intros Hpw Hcall. unfold register_submit.
  rewrite Hpw, String.eqb_refl. cbn [negb]. rewrite Hcall.
  split_and!; try done. apply show_register_error_shown.
Qed.

(** ** More on the login form *)

Lemma show_login_error_shown (msg : string) (st : login_page) :
  "show" ∈ loginError_classes (show_login_error msg st).
Proof.
  unfold show_login_error. cbn [loginError_classes].
  destruct (existsb (String.eqb "show") (loginError_classes st)) eqn:Hs.
  - apply existsb_exists in Hs as (c & Hin & Heq).
    apply String.eqb_eq in Heq as <-. by apply list_elem_of_In.
  - apply elem_of_app. right. apply list_elem_of_singleton. done.
Qed.

Lemma login_incomplete (st : login_page) :
  trim (loginUsername st) = "" ∨ loginPassword st = "" →
  login_submit st = show_login_error "Заполните все поля!" st.
Proof.
  intros H. unfold login_submit.
  destruct H as [-> | ->]; [done|]. by rewrite orb_true_r.
Qed.

(** A login the gateway refuses (bad credentials, server or network error)
    does not navigate and leaves local storage as it is; the message is
    shown in the error area. *)
Theorem login_failure (st : login_page) (e : error) :
  trim (loginUsername st) ≠ "" →
  loginPassword st ≠ "" →
  login_call st = Throw e →
  href (login_submit st) = href st ∧
  login_storage (login_submit st) = login_storage st ∧
  loginError_text (login_submit st)
  = (if String.eqb (message e) "" then "Ошибка входа" else message e) ∧
  ("show" ∈ loginError_classes (login_submit st)).
Proof.
  intros Hu Hp Hcall. unfold login_submit.
  apply String.eqb_neq in Hu as ->. apply String.eqb_neq in Hp as ->.
  cbn [orb]. rewrite Hcall. split_and!; try done.
  apply show_login_error_shown.
Qed.

(** A login whose response carries a truthy [access_token] stores it (as a
    string) under [token], clears the error area and navigates. *)
Theorem login_stores_access_token (st : login_page) (data : value) :
  trim (loginUsername st) ≠ "" →
  loginPassword st ≠ "" →
  login_call st = Return data →
  truthy data = true →
  truthy (prop data "access_token") = true →
  login_storage (login_submit st) !! "token"
  = Some (ToString (prop data "access_token")) ∧
  href (login_submit st) = Some "/home.html" ∧
  loginError_text (login_submit st) = "" ∧
  ("show" ∉ loginError_classes (login_submit st)).
Proof.
  intros Hu Hp Hcall Hd Ht. unfold login_submit.
  apply String.eqb_neq in Hu as ->. apply String.eqb_neq in Hp as ->.
  simpl. rewrite Hcall, Hd, Ht. simpl. split_and!; try done.
  - apply lookup_insert_eq.
  - rewrite list_elem_of_filter. by intros [? _].
Qed.

(** Whatever happens, a login submission changes local storage at most at
    the key [token], never removes a stored token, and leaves the two
    inputs as they are. *)
Theorem login_storage_frame (st : login_page) :
  (∀ k, k ≠ "token" →
        login_storage (login_submit st) !! k = login_storage st !! k) ∧
  (is_Some (login_storage st !! "token") →
   is_Some (login_storage (login_submit st) !! "token")) ∧
  loginUsername (login_submit st) = loginUsername st ∧
  loginPassword (login_submit st) = loginPassword st.
Proof.
  unfold login_submit.
  destruct (String.eqb (trim (loginUsername st)) "" ||
            String.eqb (loginPassword st) ""); [by split_and!|].
  destruct (login_call st) as [data|e]; simpl; [|by split_and!].
  destruct (truthy data && truthy (prop data "access_token")); simpl;
    split_and!; try done.
  - intros k Hk. by rewrite lookup_insert_ne.
  - intros _. rewrite lookup_insert_eq. by eexists.
Qed.

(** ** More on the cart and the bookmarks *)

Lemma findIndex_snoc {A : Type} (p : A → bool) (l : list A) (x : A) :
  findIndex p l = None → p x = true → findIndex p (l ++ [x]) = Some (length l).
Proof.
  intros Hnone Hx. induction l as [|y l IH]; simpl in *.
  - by rewrite Hx.
  - destruct (p y); [done|].
    destruct (findIndex p l); [done|]. by rewrite IH.
Qed.

Lemma delete_snoc {A : Type} (l : list A) (x : A) :
  delete (length l) (l ++ [x]) = l.
Proof.
  induction l as [|y l IH]; [done|]. simpl. by rewrite IH.
Qed.

(** The entries of a collection after a [toggle] whose call succeeded. *)
Lemma toggle_success_run (c : collection) (movie : item) (st : page)
  (v : value) :
  issued_call c movie st = Some (Return v) →
  entries c (toggle c movie st).2
  = match findIndex (same_id movie) (entries c st) with
    | None => entries c st ++ [movie]
    | Some i => delete i (entries c st)
    end.
Proof.
  run_toggle.
  destruct (querySelector (button_selector c movie)) as [e'| |b]; [done|..];
    destruct (findIndex (same_id movie) (entries c st)) as [i|];
    simpl; intros [= ->]; simpl; by destruct c.
Qed.

(** Adding and removing is a round trip: two [toggle]s of a movie that was
    not in the collection, both accepted by the server, leave the entries of
    the collection exactly as they were. *)
Theorem toggle_twice_restores (c : collection) (movie : item) (st : page)
  (v1 v2 : value) :
  findIndex (same_id movie) (entries c st) = None →
  issued_call c movie st = Some (Return v1) →
  issued_call c movie (toggle c movie st).2 = Some (Return v2) →
  entries c (toggle c movie (toggle c movie st).2).2 = entries c st.
Proof.
  intros Hnone H1 H2.
  rewrite (toggle_success_run _ _ _ v2 H2).
  rewrite (toggle_success_run _ _ _ v1 H1), Hnone.
  rewrite findIndex_snoc; [apply delete_snoc|done|].
  unfold same_id. apply String.eqb_refl.
Qed.

(** Whatever the server answers and whatever the page holds, a [toggle]
    writes local storage at most at the keys [cart] and [bookmarks]: the
    stored token is never touched. *)
Theorem toggle_storage_frame (c : collection) (movie : item) (st : page)
  (k : string) :
  k ≠ "cart" → k ≠ "bookmarks" →
  localStorage (toggle c movie st).2 !! k = localStorage st !! k.
Proof.
  intros Hc Hb. run_toggle.
  destruct (querySelector (button_selector c movie)) as [e'| |b]; [done|..];
    destruct (findIndex (same_id movie) (entries c st)) as [i|]; simpl;
    match goal with
    | |- context [apiRequest ?s ?p ?o] => destruct (apiRequest s p o)
    end; simpl; try done; destruct c; simpl; try done;
    by rewrite !lookup_insert_ne.
Qed.

(** [fetchCartFromServer] and [fetchBookmarksFromServer] never throw, never
    alert and never change a button: they return the entries of the
    collection as they are after the call. A response that is not an array
    leaves the page exactly as it was. *)
Theorem fetchFromServer_quiet (c : collection) (st : page) :
  (fetchFromServer c st).1 = Return (entries c (fetchFromServer c st).2) ∧
  alerts (fetchFromServer c st).2 = alerts st ∧
  textContent (fetchFromServer c st).2 = textContent st ∧
  (∀ data,
     apiRequest (localStorage st) (endpoint c) no_options = Return data →
     (∀ rows, data ≠ VArr rows) →
     (fetchFromServer c st).2 = st).
Proof.
  unfold fetchFromServer, try_catch, api, lift, gets, mbind, M_bind,
    updateStorage, setItem, modify, mbind, M_bind. simpl.
  destruct (apiRequest (localStorage st) (endpoint c) no_options)
    as [data|e]; simpl; [|split_and!; try done].
  destruct data as [| | | | |rows| |]; simpl;
    try (split_and!; try done; intros ? [= <-] ?; done).
  destruct (project_all rows) as [l|e]; simpl.
  - destruct c; simpl; split_and!; try done;
      intros ? [= <-] Hna; by destruct (Hna rows).
  - by split_and!.
Qed.

(** ** More on the sort pipeline *)

Lemma StronglySorted_filter {A : Type} (R : A → A → Prop) (P : A → Prop)
  `{∀ x, Decision (P x)} (l : list A) :
  StronglySorted R l → StronglySorted R (filter P l).
Proof.
  induction 1 as [|x l Hs IH Hall]; [constructor|].
  destruct (decide (P x)).
  - rewrite filter_cons_True by done. constructor; [done|].
    rewrite Forall_forall in Hall. apply Forall_forall.
    intros y [_ Hy]%list_elem_of_filter. by apply Hall.
  - by rewrite filter_cons_False.
Qed.

(** Sorting by one field and then by another orders the films by the second
    field and, among films that are equivalent for the second field, by the
    first one. *)
Theorem sortFilms_two_keys (h : gmap nat (list film)) (films : nat)
  (first second : string) (arr : list film) :
  h !! films = Some arr →
  ∃ (copy1 copy2 : nat) (h1 h2 : gmap nat (list film)) (sorted : list film),
    sortFilms h films first = Some (copy1, h1) ∧
    sortFilms h1 copy1 second = Some (copy2, h2) ∧
    h2 !! copy2 = Some sorted ∧
    h2 !! films = Some arr ∧
    sorted ≡ₚ arr ∧
    StronglySorted (film_le second) sorted ∧
    (∀ k, StronglySorted (film_le first)
            (filter (λ a, film_le second k a ∧ film_le second a k) sorted)).
Proof.
  intros Harr.
  pose proof (sortFilms_run h films first arr Harr) as Hrun1.
  set (copy1 := fresh (dom h)) in *.
  set (sorted1 := Array_sort (compare_films first) arr) in *.
  set (h1 := <[copy1 := sorted1]> h) in *.
  assert (h1 !! copy1 = Some sorted1) as H1 by apply lookup_insert_eq.
  pose proof (sortFilms_run h1 copy1 second sorted1 H1) as Hrun2.
  assert (copy1 ≠ films) as Hne1.
  { intros Heq. pose proof (is_fresh (dom h)) as Hnew.
    apply Hnew, elem_of_dom. fold copy1. rewrite Heq. by exists arr. }
  assert (fresh (dom h1) ≠ films) as Hne2.
  { intros Heq. pose proof (is_fresh (dom h1)) as Hnew.
    apply Hnew, elem_of_dom. rewrite Heq. exists arr.
    unfold h1. by rewrite lookup_insert_ne. }
  exists copy1, (fresh (dom h1)), h1,
    (<[fresh (dom h1) := Array_sort (compare_films second) sorted1]> h1),
    (Array_sort (compare_films second) sorted1).
  split_and!; [exact Hrun1|exact Hrun2|apply lookup_insert_eq|..].
  - rewrite lookup_insert_ne by done. unfold h1.
    by rewrite lookup_insert_ne.
  - etrans; [apply Array_sort_perm|apply Array_sort_perm].
  - apply Array_sort_sorted.
    + apply film_le_trans.
    + apply film_le_total.
    + apply compare_films_le.
  - intros k. rewrite (Array_sort_stable _ (film_le second)).
    + apply StronglySorted_filter. apply Array_sort_sorted.
      * apply film_le_trans.
      * apply film_le_total.
      * apply compare_films_le.
    + apply film_le_trans.
    + apply compare_films_le.
Qed.

(** ** Rendering, clicks and the home page *)

Lemma render_each_ok (items : list value) (container cards : list card) :
  Forall2 rendered items cards →
  render_each items container = (Return tt, container ++ cards).
Proof.
  intros Hall. revert container.
  induction Hall as [|v c items cards (f & Hf & Hc) _ IH]; intros container.
  - by rewrite app_nil_r.
  - simpl. rewrite Hf, Hc, IH. by rewrite <-app_assoc.
Qed.

Lemma render_each_inv (items : list value) (container cards : list card) :
  render_each items container = (Return tt, cards) →
  ∃ new, cards = container ++ new ∧ Forall2 rendered items new.
Proof.
  revert container. induction items as [|v items IH]; intros container; simpl.
  - intros [= <-]. exists []. by rewrite app_nil_r.
  - destruct (film_of v) as [f|e] eqn:Hf; [|done].
    destruct (render_card f) as [c|e] eqn:Hc; [|done].
    intros (new & -> & Hnew)%IH. exists (c :: new).
    rewrite <-app_assoc. split; [done|].
    constructor; [by exists f|done].
Qed.

Lemma render_each_fail (good rest : list value) (bad : value) (e : error)
  (container cards : list card) :
  Forall2 rendered good cards → render_fails bad e →
  render_each (good ++ bad :: rest) container = (Throw e, container ++ cards).
Proof.
  intros Hall Hbad. revert container.
  induction Hall as [|v c good cards (f & Hf & Hc) _ IH]; intros container.
  - rewrite app_nil_r. simpl.
    destruct Hbad as [-> | (f & -> & ->)]; done.
  - simpl. rewrite Hf, Hc, IH. by rewrite <-app_assoc.
Qed.

Lemma renderMovies_cards_ok (items : list value) (container cards : list card) :
  Forall2 rendered items cards →
  renderMovies (VArr items) container = (Return tt, cards).
Proof. intros Hall. simpl. by rewrite (render_each_ok _ _ cards). Qed.

(** [renderMovies] succeeds on an array exactly when every element renders,
    and then the container holds one card per element, in the order of the
    array, whatever it held before. *)
Theorem renderMovies_cards (items : list value) (container cards : list card) :
  renderMovies (VArr items) container = (Return tt, cards) ↔
  Forall2 rendered items cards.
Proof.
  split.
  - simpl. intros (new & -> & Hnew)%render_each_inv. done.
  - apply renderMovies_cards_ok.
Qed.

(** [renderMovies] stops at the first element that does not render: the
    exception leaves the function, and the container holds the cards of the
    elements before it and nothing of what it held before. *)
Theorem renderMovies_stops (good rest : list value) (bad : value) (e : error)
  (container cards : list card) :
  Forall2 rendered good cards → render_fails bad e →
  renderMovies (VArr (good ++ bad :: rest)) container = (Throw e, cards).
Proof.
  intros Hall Hbad. simpl. by rewrite (render_each_fail _ _ _ e _ cards).
Qed.

Lemma render_card_fields (f : film) (c : card) :
  render_card f = Return c →
  data_id c = ToString (card_id f) ∧
  movie_title c = text_of (titleToDisplay f) ∧
  movie_author c = author_text f ∧
  movie_price c = price_text f.
Proof.
  unfold render_card. destruct (imageSrc f); [|done].
  destruct (encodeURIComponent _); [|done]. by intros [= <-].
Qed.

Lemma on_click_cart (c : clicked_card) (st : page) :
  (on_click (Click true false (Some c)) st).2
  = (toggleCart (clicked_movie c) st).2.
Proof.
  unfold on_click, mbind, M_bind, mret, M_ret. simpl.
  by destruct (toggleCart (clicked_movie c) st) as [[[]|e] st'].
Qed.

(** A click on the cart button of a rendered card, accepted by the server,
    appends to the cart what the card displays, not the record it was
    rendered from: the [data-id] string, the displayed title, the displayed
    author (the default text when the record has none) and the price line
    with its currency suffix. *)
Theorem click_adds_displayed_texts (f : film) (c : card) (st : page)
  (v : value) :
  render_card f = Return c →
  findIndex (same_id (clicked_movie (card_view c))) (cart st) = None →
  issued_call Cart (clicked_movie (card_view c)) st = Some (Return v) →
  cart (on_click (Click true false (Some (card_view c))) st).2
  = cart st ++ [Item (VStr (ToString (card_id f)))
                     (VStr (text_of (titleToDisplay f)))
                     (VStr (author_text f))
                     (VStr (if truthy (obj_get f "price")
                            then ToString (obj_get f "price") +:+ " ₽/шт"
                            else "Цена не указана"))] ∧
  bookmarks (on_click (Click true false (Some (card_view c))) st).2
  = bookmarks st.
Proof.
  intros Hc Hnone Hcall. rewrite on_click_cart.
  apply render_card_fields in Hc as (Hid & Ht & Ha & Hp).
  assert (clicked_movie (card_view c)
          = Item (VStr (ToString (card_id f)))
                 (VStr (text_of (titleToDisplay f)))
                 (VStr (author_text f)) (VStr (price_text f))) as Hmovie.
  { unfold clicked_movie, card_view. simpl. by rewrite Hid, Ht, Ha, Hp. }
  split.
  - change (cart ?s) with (entries Cart s).
    unfold toggleCart. rewrite (toggle_success_run _ _ _ v Hcall).
    change (entries Cart st) with (cart st). rewrite Hnone.
    by rewrite Hmovie.
  - revert Hcall. unfold toggleCart. run_toggle.
    destruct (querySelector _) as [e'| |b]; [done|..];
      rewrite Hnone; simpl; intros [= ->]; done.
Qed.

(** In app.js two rendered cards of records with truthy ids are the same
    movie for [toggle] exactly when the ids are equal as strings. *)
Theorem card_identity (f1 f2 : film) (c1 c2 : card) :
  render_card f1 = Return c1 →
  render_card f2 = Return c2 →
  truthy (obj_get f1 "id") = true →
  truthy (obj_get f2 "id") = true →
  same_id (clicked_movie (card_view c1)) (clicked_movie (card_view c2)) = true
  ↔ ToString (obj_get f1 "id") = ToString (obj_get f2 "id").
Proof.
  intros (H1 & _)%render_card_fields (H2 & _)%render_card_fields Ht1 Ht2.
  unfold same_id, clicked_movie, card_view. simpl.
  rewrite H1, H2. unfold card_id, js_or. rewrite Ht1, Ht2.
  rewrite String.eqb_eq. split; by intros ->.
Qed.

(** In the older copy of the script every record without a [flim_id] gets
    the [data-id] [undefined], whatever its [id]: all such cards are one and
    the same movie for [toggle]. *)
Theorem card_identity_part_000 (f1 f2 : film) (c1 c2 : card) :
  render_card_part_000 f1 = Return c1 →
  render_card_part_000 f2 = Return c2 →
  obj_get f1 "flim_id" = VUndefined →
  obj_get f2 "flim_id" = VUndefined →
  data_id c1 = "undefined" ∧
  same_id (clicked_movie (card_view c1)) (clicked_movie (card_view c2)) = true.
Proof.
  unfold render_card_part_000. intros H1 H2 Hf1 Hf2.
  destruct (imageSrc_part_000 f1); [|done].
  destruct (encodeURIComponent (ToString (titleToDisplay f1))); [|done].
  destruct (imageSrc_part_000 f2); [|done].
  destruct (encodeURIComponent (ToString (titleToDisplay f2))); [|done].
  simplify_eq/=. by rewrite Hf1, Hf2.
Qed.

(** The sort handler shows the cards that were there, in the order of the
    sorted films: when every film of the cache renders, sorting never fails,
    leaves the cache as it is and fills the section with a rearrangement of
    the same cards, one per film of the sorted array. Without the section it
    throws. *)
Theorem sort_change_same_cards (field : string) (h : gmap nat (list film))
  (cache : nat) (films : list film) (cards container : list card) :
  h !! cache = Some films →
  Forall2 (λ f c, render_card f = Return c) films cards →
  ∃ (h' : gmap nat (list film)) (sorted : list film) (cards' : list card),
    sort_change field h cache (Some container)
    = Some (h', (Return tt, Some cards')) ∧
    sort_change field h cache None
    = Some (h', (Throw (Error null_property_message), None)) ∧
    h' !! cache = Some films ∧
    sorted ≡ₚ films ∧
    StronglySorted (film_le field) sorted ∧
    Forall2 (λ f c, render_card f = Return c) sorted cards' ∧
    cards' ≡ₚ cards.
Proof.
  intros Hcache Hcards.
  pose proof (sortFilms_run h cache field films Hcache) as Hrun.
  set (sorted := Array_sort (compare_films field) films) in *.
  assert (sorted ≡ₚ films) as Hperm by apply Array_sort_perm.
  destruct (Permutation_Forall2 (symmetry Hperm) Hcards)
    as (cards' & Hperm' & Hcards').
  assert (fresh (dom h) ≠ cache) as Hne.
  { intros Heq. pose proof (is_fresh (dom h)) as Hnew.
    apply Hnew, elem_of_dom. rewrite Heq. by exists films. }
  exists (<[fresh (dom h) := sorted]> h), sorted, cards'.
  assert (renderMovies (VArr (VObj <$> sorted)) container
          = (Return tt, cards')) as Hrender.
  { apply renderMovies_cards_ok. apply Forall2_fmap_l.
    eapply Forall2_impl; [exact Hcards'|].
    intros f c Hc. by exists f. }
  split_and!.
  - unfold sort_change. rewrite Hrun. cbn -[renderMovies].
    rewrite lookup_insert_eq. cbn -[renderMovies]. by rewrite Hrender.
  - unfold sort_change. rewrite Hrun. simpl.
    by rewrite lookup_insert_eq.
  - by rewrite lookup_insert_ne.
  - done.
  - apply Array_sort_sorted.
    + apply film_le_trans.
    + apply film_le_total.
    + apply compare_films_le.
  - done.
  - by symmetry.
Qed.

(** When both requests succeed with arrays whose elements all render,
    [loadHomeMovies] caches the first array and fills the two sections with
    the cards of the two arrays; nothing is written to the console. *)
Theorem loadHomeMovies_success (st : home_page) (all random : list card)
  (items1 items2 : list value) (cards1 cards2 : list card) :
  allMoviesSection st = Some all →
  randomMoviesSection st = Some random →
  apiRequest (home_storage st) "/films/all" no_options
  = Return (VArr items1) →
  Forall2 rendered items1 cards1 →
  apiRequest (home_storage st) "/films/random/4" no_options
  = Return (VArr items2) →
  Forall2 rendered items2 cards2 →
  loadHomeMovies st
  = HomePage (VArr items1) (Some cards1) (Some cards2) (home_storage st)
      (console_errors st).
Proof.
  intros Hall Hrandom Hreq1 Hcards1 Hreq2 Hcards2.
  unfold loadHomeMovies. rewrite Hall, Hrandom, Hreq1.
  rewrite (renderMovies_cards_ok _ _ _ Hcards1), Hreq2.
  by rewrite (renderMovies_cards_ok _ _ _ Hcards2).
Qed.

(** A listing response that is not an array empties the listing: the value
    is cached all the same, the section loses its cards, an error is written
    to the console, and the random section is not touched (the second
    request is not made). *)
Theorem loadHomeMovies_bad_response (st : home_page) (all random : list card)
  (data : value) :
  allMoviesSection st = Some all →
  randomMoviesSection st = Some random →
  apiRequest (home_storage st) "/films/all" no_options = Return data →
  (∀ items, data ≠ VArr items) →
  ∃ e, loadHomeMovies st
       = HomePage data (Some []) (Some random) (home_storage st)
           (console_errors st ++ [e]).
Proof.
  intros Hall Hrandom Hreq Hna.
  unfold loadHomeMovies. rewrite Hall, Hrandom, Hreq.
  destruct data as [| | | | |items| |]; simpl; try by eexists.
  by destruct (Hna items).
Qed.

(** When a section is missing nothing happens at all, and when the listing
    request fails the cache and both sections stay as they are: the error
    is only written to the console. *)
Theorem loadHomeMovies_keeps_listing (st : home_page) :
  (allMoviesSection st = None ∨ randomMoviesSection st = None ∨
   ∃ e, apiRequest (home_storage st) "/films/all" no_options = Throw e) →
  allFilmsCache (loadHomeMovies st) = allFilmsCache st ∧
  allMoviesSection (loadHomeMovies st) = allMoviesSection st ∧
  randomMoviesSection (loadHomeMovies st) = randomMoviesSection st ∧
  home_storage (loadHomeMovies st) = home_storage st ∧
  (allMoviesSection st = None ∨ randomMoviesSection st = None →
   loadHomeMovies st = st).
Proof.
  unfold loadHomeMovies.
  destruct (allMoviesSection st) as [all|] eqn:Hall;
    destruct (randomMoviesSection st) as [random|] eqn:Hrandom;
    intros H; try (by rewrite ?Hall, ?Hrandom).
  destruct H as [?|[?|[e He]]]; [done|done|].
  rewrite He. simpl. split_and!; try done. by intros [?|?].
Qed.

End Client.

(** * What validation never does: send a request *)

(** With two passwords that differ the register handler does not reach the
    server: whatever the page location and whatever [fetch] would answer,
    the outcome is the same; the message is shown, the forms, the inputs and
    local storage are as before. *)
Theorem register_mismatch_offline (trim : string → string)
  (JSON_parse : string → option value) (JSON_stringify : value → string)
  (location location' : Location) (fetch fetch' : request → fetch_result)
  (st : register_page) :
  password st ≠ confirmPassword st →
  register_submit trim JSON_parse JSON_stringify location fetch st
  = register_submit trim JSON_parse JSON_stringify location' fetch' st ∧
  error_text (register_submit trim JSON_parse JSON_stringify location fetch st)
  = "Пароли не совпадают!" ∧
  ("show" ∈ error_classes
              (register_submit trim JSON_parse JSON_stringify location fetch
                 st)) ∧
  register_document
    (register_submit trim JSON_parse JSON_stringify location fetch st)
  = register_document st ∧
  register_storage
    (register_submit trim JSON_parse JSON_stringify location fetch st)
  = register_storage st.
Proof.
  intros Hne.
  rewrite (register_mismatch trim JSON_parse JSON_stringify location fetch st
             Hne).
  rewrite (register_mismatch trim JSON_parse JSON_stringify location' fetch'
             st Hne).
  split_and!; try done. apply show_register_error_shown.
Qed.

(** With an empty user name (after trimming) or an empty password the login
    handler does not reach the server: whatever the page location and
    whatever [fetch] would answer, the outcome is the same; the message is
    shown, local storage is as before and the page does not navigate. *)
Theorem login_validation_offline (Number_toString : number → string)
  (trim : string → string) (JSON_parse : string → option value)
  (JSON_stringify : value → string) (location location' : Location)
  (fetch fetch' : request → fetch_result) (st : login_page) :
  trim (loginUsername st) = "" ∨ loginPassword st = "" →
  login_submit Number_toString trim JSON_parse JSON_stringify location fetch st
  = login_submit Number_toString trim JSON_parse JSON_stringify location'
      fetch' st ∧
  loginError_text
    (login_submit Number_toString trim JSON_parse JSON_stringify location
       fetch st)
  = "Заполните все поля!" ∧
  ("show" ∈ loginError_classes
              (login_submit Number_toString trim JSON_parse JSON_stringify
                 location fetch st)) ∧
  login_storage
    (login_submit Number_toString trim JSON_parse JSON_stringify location
       fetch st)
  = login_storage st ∧
  href
    (login_submit Number_toString trim JSON_parse JSON_stringify location
       fetch st)
  = href st.
Proof.
  intros Hin.
  rewrite (login_incomplete Number_toString trim JSON_parse JSON_stringify
             location fetch st Hin).
  rewrite (login_incomplete Number_toString trim JSON_parse JSON_stringify
             location' fetch' st Hin).
  split_and!; try done. apply show_login_error_shown.
Qed.

(** * Closed examples, on the reference engine *)

(** The script's functions at the reference engine and the sample page. *)
Abbreviation ref_toggle :=
  (toggle Ref.Number_toString Ref.JSON_parse Ref.JSON_stringify null_message
     page_location).
Abbreviation ref_issued_call :=
  (issued_call Ref.Number_toString Ref.JSON_parse Ref.JSON_stringify
     page_location).
Abbreviation ref_count_id :=
  (count_id Ref.Number_toString).
Abbreviation ref_fetchFromServer :=
  (fetchFromServer Ref.JSON_parse Ref.JSON_stringify read_message
     not_a_function page_location).
Abbreviation ref_apiRequest :=
  (apiRequest Ref.JSON_parse Ref.JSON_stringify page_location).
Abbreviation ref_sortFilms :=
  (sortFilms Ref.Number_toString Ref.toLowerCase Ref.parseFloat_string).
Abbreviation ref_imageSrc :=
  (imageSrc Ref.Number_toString Ref.toLowerCase read_message not_a_function).
Abbreviation ref_login_submit :=
  (login_submit Ref.Number_toString Ref.trim Ref.JSON_parse
     Ref.JSON_stringify page_location).
Abbreviation ref_login_call :=
  (login_call Ref.trim Ref.JSON_parse Ref.JSON_stringify page_location).
Abbreviation ref_register_submit :=
  (register_submit Ref.trim Ref.JSON_parse Ref.JSON_stringify page_location).
Abbreviation ref_register_call :=
  (register_call Ref.trim Ref.JSON_parse Ref.JSON_stringify page_location).
Abbreviation ref_render_card :=
  (render_card Ref.Number_toString Ref.toLowerCase read_message
     not_a_function Ref.encodeURIComponent).
Abbreviation ref_render_card_part_000 :=
  (render_card_part_000 Ref.Number_toString Ref.toLowerCase read_message
     not_a_function Ref.encodeURIComponent).
Abbreviation ref_rendered :=
  (rendered Ref.Number_toString Ref.toLowerCase read_message not_a_function
     Ref.encodeURIComponent).
Abbreviation ref_renderMovies :=
  (renderMovies Ref.Number_toString Ref.toLowerCase read_message
     not_a_function Ref.encodeURIComponent).
Abbreviation ref_on_click :=
  (on_click Ref.Number_toString Ref.JSON_parse Ref.JSON_stringify
     null_message page_location).
Abbreviation ref_sort_change :=
  (sort_change Ref.Number_toString Ref.toLowerCase Ref.parseFloat_string
     null_message read_message not_a_function Ref.encodeURIComponent).
Abbreviation ref_loadHomeMovies :=
  (loadHomeMovies Ref.Number_toString Ref.toLowerCase Ref.JSON_parse
     Ref.JSON_stringify read_message not_a_function page_location).

(** ** Session forms *)

(** C7 as stated fails: with no element of the given id the call is not a
    no-op, the active form is deactivated. *)
Lemma showForm_missing_target_deactivates :
  getElementById "resetForm" two_forms = None ∧
  contains "active" <$> two_forms = [true; false] ∧
  contains "active" <$> showForm "resetForm" two_forms = [false; false].
Proof. by vm_compute. Qed.

Example showForm_switch :
  contains "active" <$> showForm "loginForm" two_forms = [false; true].
Proof. by vm_compute. Qed.

(** ** The request gateway *)


(** C5 at a response with status 503 and a body that is not JSON. *)
Lemma apiRequest_response_witness :
  server_down (build_request page_location ∅ "/cart" no_options)
  = Response false "Service Unavailable" ∧
  ref_apiRequest server_down ∅ "/cart" no_options
  = Throw (Error "Service Unavailable").
Proof.
  split; [reflexivity|].
  destruct (apiRequest_response Ref.JSON_parse Ref.JSON_stringify
              page_location server_down ∅ "/cart" no_options false
              "Service Unavailable" eq_refl)
    as (data & _ & Hwrap & _ & _ & Hthrow).
  destruct (Hthrow eq_refl) as (m & Hm & Herr).
  rewrite Herr.
  rewrite (Hwrap ltac:(discriminate) eq_refl) in Hm. by rewrite Hm.
Defined.

(** A validation error of the server: [detail] is a list, so the message is
    its JSON text. *)
Example apiRequest_detail_list :
  ref_apiRequest
    (λ _, Response false
            (Ref.JSON_stringify
               (VObj [("detail", VArr [VStr "username"; VNum (num_of_Z 3)])])))
    ∅ "/register" no_options
  = Throw (Error (Ref.JSON_stringify (VArr [VStr "username"; VNum (num_of_Z 3)]))).
Proof. by vm_compute. Qed.

Example apiRequest_empty_body :
  ref_apiRequest server_ok ∅ "/cart/7" (Options (Some "DELETE") None None)
  = Return (VObj []).
Proof. by vm_compute. Qed.

Example apiRequest_falsy_detail :
  ref_apiRequest
    (λ _, Response false
            (Ref.JSON_stringify
               (VObj [("detail", VStr ""); ("message", VStr "No such movie")])))
    ∅ "/cart/7" no_options
  = Throw (Error "No such movie").
Proof. by vm_compute. Qed.

(** ** The login form *)

Lemma login_without_token_witness :
  Ref.trim (loginUsername anna) ≠ "" ∧
  loginPassword anna ≠ "" ∧
  ref_login_call login_plain anna = Return (VObj [("user", VStr "anna")]) ∧
  login_storage (ref_login_submit login_plain anna) = ∅ ∧
  href (ref_login_submit login_plain anna) = Some "/home.html".
Proof.
  assert (Ref.trim (loginUsername anna) ≠ "") as Hu by (by vm_compute).
  assert (loginPassword anna ≠ "") as Hp by (by vm_compute).
  assert (ref_login_call login_plain anna
          = Return (VObj [("user", VStr "anna")])) as Hcall by (by vm_compute).
  split_and!; [done..| |];
    apply (login_without_token Ref.Number_toString Ref.trim Ref.JSON_parse
             Ref.JSON_stringify page_location login_plain anna
             (VObj [("user", VStr "anna")]) Hu Hp Hcall);
    by intros o [= <-].
Defined.

(** With a token in the response, it is stored. *)
Example login_stores_token :
  login_storage (ref_login_submit login_token anna) !! "token" = Some "t1" ∧
  href (ref_login_submit login_token anna) = Some "/home.html".
Proof. by vm_compute. Qed.

(** ** Cart and bookmarks *)

Lemma toggle_failure_witness :
  ref_issued_call server_down one_button Cart alien empty_page
  = Some (Throw (Error "Service Unavailable")) ∧
  cart (ref_toggle server_down one_button Cart alien empty_page).2 = [] ∧
  bookmarks (ref_toggle server_down one_button Cart alien empty_page).2 = [] ∧
  localStorage (ref_toggle server_down one_button Cart alien empty_page).2 = ∅ ∧
  setItem_calls (ref_toggle server_down one_button Cart alien empty_page).2 = [] ∧
  textContent (ref_toggle server_down one_button Cart alien empty_page).2 = ∅ ∧
  alerts (ref_toggle server_down one_button Cart alien empty_page).2
  = ["Service Unavailable"].
Proof.
  split; [reflexivity|].
  exact (toggle_failure_keeps_state Ref.Number_toString Ref.JSON_parse
           Ref.JSON_stringify null_message page_location server_down
           one_button Cart alien empty_page (Error "Service Unavailable")
           eq_refl).
Defined.

(** C2 at the removal of the only entry with the movie's id. *)
Lemma toggle_success_witness :
  ref_issued_call server_ok one_button Cart alien page_with_alien
  = Some (Return (VObj [])) ∧
  ref_count_id alien (cart page_with_alien) = 1 ∧
  ref_count_id alien
    (cart (ref_toggle server_ok one_button Cart alien page_with_alien).2) = 0.
Proof.
  split; [reflexivity|]. split; [reflexivity|].
  destruct (toggle_success_entries Ref.Number_toString Ref.JSON_parse
              Ref.JSON_stringify null_message page_location server_ok
              one_button Cart alien page_with_alien (VObj []) eq_refl)
    as (_ & _ & Hone & _).
  apply Hone. reflexivity.
Defined.

Example toggle_adds_once :
  cart (ref_toggle server_ok one_button Cart alien empty_page).2 = [alien] ∧
  bookmarks (ref_toggle server_ok one_button Cart alien empty_page).2 = [] ∧
  textContent (ref_toggle server_ok one_button Cart alien empty_page).2 !! 0
  = Some remove_glyph.
Proof. by vm_compute. Qed.

(** [fetchCartFromServer] takes the server's rows as they are: a movie the
    server lists twice is twice in the cart. *)
Example fetch_keeps_server_duplicates :
  ref_count_id alien (cart (ref_fetchFromServer server_twice Cart empty_page).2)
  = 2.
Proof. by vm_compute. Qed.

(** C2 as stated fails: in such a cart, a [toggle] whose remove request
    succeeds leaves an entry with the movie's id. *)
Lemma toggle_remove_leaves_duplicate :
  ref_issued_call server_ok one_button Cart alien
    (ref_fetchFromServer server_twice Cart empty_page).2
  = Some (Return (VObj [])) ∧
  ref_count_id alien
    (cart (ref_toggle server_ok one_button Cart alien
             (ref_fetchFromServer server_twice Cart empty_page).2).2)
  = 1.
Proof. by vm_compute. Qed.

(** C8 at a page without the movie's button: the movie is pushed, nothing is
    written to local storage, and the user is shown the TypeError. *)
Lemma toggle_without_button_witness :
  no_button (button_selector Ref.Number_toString Cart alien) = NoMatch ∧
  ref_issued_call server_ok no_button Cart alien empty_page
  = Some (Return (VObj [])) ∧
  cart (ref_toggle server_ok no_button Cart alien empty_page).2 = [alien] ∧
  setItem_calls (ref_toggle server_ok no_button Cart alien empty_page).2 = [] ∧
  localStorage (ref_toggle server_ok no_button Cart alien empty_page).2 = ∅ ∧
  alerts (ref_toggle server_ok no_button Cart alien empty_page).2
  = [null_message].
Proof.
  split; [reflexivity|]. split; [reflexivity|].
  exact (toggle_without_button Ref.Number_toString Ref.JSON_parse
           Ref.JSON_stringify null_message page_location server_ok no_button
           Cart alien empty_page (VObj []) eq_refl eq_refl).
Defined.

(** ** The sort pipeline *)

Example sort_by_price :
  ref_sortFilms cache 0 "price" ≫= (λ '(copy, h), h !! copy)
  = Some [filmA; filmB].
Proof. by vm_compute. Qed.

Example sort_by_title :
  ref_sortFilms cache 0 "title" ≫= (λ '(copy, h), h !! copy)
  = Some [filmA; filmB] ∧
  ref_sortFilms cache 0 "title" ≫= (λ '(copy, h), h !! 0)
  = Some [filmB; filmA].
Proof. by vm_compute. Qed.

(** In code units the surrogates of U+1F600 come before U+FF01; in bytes
    they come after. *)
Example code_units_order :
  code_units "😀" = [55357; 56832]%N ∧
  code_units "！" = [65281]%N ∧
  string_ltb "😀" "！" = true ∧
  String.ltb "😀" "！" = false.
Proof. by vm_compute. Qed.

(** C3 at the cache [[B(20), A(5)]], sorted by price, and at five films
    sorted by title: the film without a title comes first, [A] before [b],
    and U+1F600 before U+FF01. *)
Lemma sortFilms_sorted_witness :
  cache !! 0 = Some [filmB; filmA] ∧
  ref_sortFilms cache 0 "price" = Some (1, <[1 := [filmA; filmB]]> cache) ∧
  StronglySorted
    (λ a b, num_le (price_key Ref.Number_toString Ref.parseFloat_string a)
              (price_key Ref.Number_toString Ref.parseFloat_string b))
    [filmA; filmB] ∧
  titles !! 0 = Some [film_wide; film_b; film_smile; film_untitled; filmA] ∧
  ref_sortFilms titles 0 "title"
  = Some (1, <[1 := [film_untitled; filmA; film_b; film_smile; film_wide]]>
               titles) ∧
  StronglySorted
    (λ a b, code_unit_le (text_key Ref.Number_toString Ref.toLowerCase "title" a)
              (text_key Ref.Number_toString Ref.toLowerCase "title" b))
    [film_untitled; filmA; film_b; film_smile; film_wide].
Proof.
  split; [reflexivity|].
  destruct (sortFilms_sorted Ref.Number_toString Ref.toLowerCase
              Ref.parseFloat_string cache 0 "price" [filmB; filmA] eq_refl)
    as (copy & sorted & Hrun & _ & _ & _ & _ & Hprice & _).
  assert (ref_sortFilms cache 0 "price"
          = Some (1, <[1 := [filmA; filmB]]> cache)) as Hval
    by (by vm_compute).
  rewrite Hval in Hrun. apply (inj Some), pair_equal_spec in Hrun as [<- Hmap].
  apply (f_equal (lookup 1)) in Hmap. rewrite !lookup_insert_eq in Hmap.
  injection Hmap as <-.
  split; [exact Hval|]. split; [by apply Hprice|].
  split; [reflexivity|].
  destruct (sortFilms_sorted Ref.Number_toString Ref.toLowerCase
              Ref.parseFloat_string titles 0 "title"
              [film_wide; film_b; film_smile; film_untitled; filmA] eq_refl)
    as (copy & sorted & Hrun & _ & _ & _ & _ & _ & Htext & _).
  assert (ref_sortFilms titles 0 "title"
          = Some (1, <[1 := [film_untitled; filmA; film_b; film_smile;
                             film_wide]]> titles)) as Hval'
    by (by vm_compute).
  rewrite Hval' in Hrun.
  apply (inj Some), pair_equal_spec in Hrun as [<- Hmap].
  apply (f_equal (lookup 1)) in Hmap. rewrite !lookup_insert_eq in Hmap.
  injection Hmap as <-.
  split; [exact Hval'|]. by apply Htext.
Defined.

(** C4 at the same cache, sorted twice by title. *)
Lemma sortFilms_idempotent_witness :
  cache !! 0 = Some [filmB; filmA] ∧
  ∃ (copy1 copy2 : nat) (h1 h2 : gmap nat (list film)) (sorted : list film),
    ref_sortFilms cache 0 "title" = Some (copy1, h1) ∧
    ref_sortFilms h1 copy1 "title" = Some (copy2, h2) ∧
    h1 !! copy1 = Some sorted ∧
    h2 !! copy2 = Some sorted.
Proof.
  split; [reflexivity|].
  destruct (sortFilms_idempotent Ref.Number_toString Ref.toLowerCase
              Ref.parseFloat_string cache 0 "title" [filmB; filmA] eq_refl)
    as (copy1 & copy2 & h1 & h2 & sorted & Hrun1 & Hrun2 & H1 & H2 & _).
  by exists copy1, copy2, h1, h2, sorted.
Defined.

(** ** Image resolution *)

Example image_raw_payload :
  ref_imageSrc [("title", VStr "Alien"); ("movie_base64", VStr "iVBORw0KGgo=")]
  = Return (VStr "data:image/jpeg;base64,iVBORw0KGgo=").
Proof. by vm_compute. Qed.

Example image_data_uri :
  ref_imageSrc [("movie_base64", VStr "data:image/png;base64,iVBORw0KGgo=")]
  = Return (VStr "data:image/png;base64,iVBORw0KGgo=").
Proof. by vm_compute. Qed.

Example image_title_any_case :
  ref_imageSrc [("title", VStr "the dark KNIGHT")]
  = Return (VStr "/images_for_movies/the_dark_knight.jpg").
Proof. by vm_compute. Qed.

Example image_placeholder :
  ref_imageSrc [("title", VStr "Solaris")] = Return (VStr placeholder).
Proof. by vm_compute. Qed.

(** A record without a title and without a payload makes [renderMovies]
    throw: [title.toLowerCase()] is evaluated on [undefined]. *)
Example image_without_title :
  ref_imageSrc [("price", VStr "5")] = Throw (Error read_message).
Proof. by vm_compute. Qed.

(** The title [constructor] equals no key of the table, up to case either. *)
Example constructor_is_no_key :
  first_entry Ref.toLowerCase (Ref.toLowerCase "constructor") titleMapping
  = None.
Proof. by vm_compute. Qed.

(** ** Further examples *)

Lemma toggle_with_button_witness :
  one_button (button_selector Ref.Number_toString Bookmarks alien) = Match 0 ∧
  ref_issued_call server_ok one_button Bookmarks alien empty_page
  = Some (Return (VObj [])) ∧
  setItem_calls (ref_toggle server_ok one_button Bookmarks alien empty_page).2
  = [("cart", "[]");
     ("bookmarks", Ref.JSON_stringify (VArr [item_value alien]))] ∧
  textContent (ref_toggle server_ok one_button Bookmarks alien empty_page).2 !! 0
  = Some remove_glyph.
Proof.
  split; [reflexivity|]. split; [reflexivity|].
  exact (toggle_with_button_persists Ref.Number_toString Ref.JSON_parse
           Ref.JSON_stringify null_message page_location server_ok one_button
           Bookmarks alien empty_page (VObj []) 0 eq_refl eq_refl).
Defined.

(** Uniqueness of ids, from the empty cart. *)
Lemma toggle_keeps_unique_witness :
  (∀ m, ref_count_id m (entries Cart empty_page) ≤ 1) ∧
  (∀ m, ref_count_id m
          (entries Cart (ref_toggle server_ok one_button Cart alien empty_page).2)
        ≤ 1).
Proof.
  assert (∀ m, ref_count_id m (entries Cart empty_page) ≤ 1) as Hempty.
  { intros m. apply Nat.le_0_l. }
  split; [exact Hempty|].
  exact (toggle_keeps_unique Ref.Number_toString Ref.JSON_parse
           Ref.JSON_stringify null_message page_location server_ok one_button
           Cart alien empty_page Hempty).
Defined.

(** A cart fetch that the server refuses. *)
Lemma fetchFromServer_failure_witness :
  ref_apiRequest server_down (localStorage page_with_alien) (endpoint Cart)
    no_options
  = Throw (Error "Service Unavailable") ∧
  ref_fetchFromServer server_down Cart page_with_alien
  = (Return [alien], page_with_alien).
Proof.
  split; [reflexivity|].
  exact (fetchFromServer_failure Ref.JSON_parse Ref.JSON_stringify
           read_message not_a_function page_location server_down Cart
           page_with_alien (Error "Service Unavailable") eq_refl).
Defined.

(** A cart fetch that returns two rows, the second without an author and
    with a price that is not truthy. *)
Lemma fetchFromServer_success_witness :
  ref_apiRequest server_rows (localStorage empty_page) (endpoint Cart)
    no_options
  = Return (VArr [alien_row; sparse_row]) ∧
  cart (ref_fetchFromServer server_rows Cart empty_page).2
  = [ Item (VNum (num_of_Z 7)) (VStr "Alien") (VStr "Ridley Scott")
        (VNum (num_of_Z 299));
      Item (VNum (num_of_Z 8)) (VStr "Solaris") (VStr "") (VStr "") ] ∧
  bookmarks (ref_fetchFromServer server_rows Cart empty_page).2 = [].
Proof.
  assert (ref_apiRequest server_rows (localStorage empty_page) (endpoint Cart)
            no_options
          = Return (VArr [alien_row; sparse_row])) as Hcall by (by vm_compute).
  split; [exact Hcall|].
  destruct (fetchFromServer_success Ref.JSON_parse Ref.JSON_stringify
              read_message not_a_function page_location server_rows Cart
              empty_page [alien_row; sparse_row] Hcall)
    as (Hcart & _ & Hother & _).
  - constructor; [by split|]. constructor; [by split|]. constructor.
  - split.
    + change (cart ?st) with (entries Cart st). rewrite Hcart. reflexivity.
    + by apply (Hother Bookmarks).
Defined.

(** Two films of price 20 keep their order. *)
Lemma sortFilms_stable_witness :
  cache3 !! 0 = Some [filmC; filmB; filmA] ∧
  ∃ (copy : nat) (sorted : list film),
    ref_sortFilms cache3 0 "price" = Some (copy, <[copy := sorted]> cache3) ∧
    filter (λ a, film_le Ref.Number_toString Ref.toLowerCase
                   Ref.parseFloat_string "price" filmB a ∧
                 film_le Ref.Number_toString Ref.toLowerCase
                   Ref.parseFloat_string "price" a filmB) sorted
    = [filmC; filmB].
Proof.
  split; [reflexivity|].
  destruct (sortFilms_stable Ref.Number_toString Ref.toLowerCase
              Ref.parseFloat_string cache3 0 "price" [filmC; filmB; filmA]
              filmB eq_refl)
    as (copy & sorted & Hrun & Hstable).
  exists copy, sorted. split; [exact Hrun|]. rewrite Hstable. by vm_compute.
Defined.

Example sort_equal_prices :
  ref_sortFilms cache3 0 "price" ≫= (λ '(copy, h), h !! copy)
  = Some [filmA; filmC; filmB].
Proof. by vm_compute. Qed.

(** A raw payload. *)
Lemma imageSrc_raw_payload_witness :
  obj_get [("movie_base64", VStr "iVBORw0KGgo=")] "movie_base64"
  = VStr "iVBORw0KGgo=" ∧
  ref_imageSrc [("movie_base64", VStr "iVBORw0KGgo=")]
  = Return (VStr "data:image/jpeg;base64,iVBORw0KGgo=").
Proof.
  split; [reflexivity|].
  by apply (imageSrc_raw_payload Ref.Number_toString Ref.toLowerCase
              read_message not_a_function _ "iVBORw0KGgo=").
Defined.

(** A payload that is an image data URI. *)
Lemma imageSrc_data_uri_witness :
  String.prefix "data:image/" "data:image/png;base64,iVBORw0KGgo=" = true ∧
  ref_imageSrc [("movie_base64", VStr "data:image/png;base64,iVBORw0KGgo=")]
  = Return (VStr "data:image/png;base64,iVBORw0KGgo=").
Proof.
  split; [reflexivity|].
  by apply (imageSrc_data_uri Ref.Number_toString Ref.toLowerCase
              read_message not_a_function).
Defined.

(** A title of the table. *)
Lemma imageSrc_exact_title_witness :
  own_get titleMapping "Alien" = Some (VStr "/images_for_movies/alien.jpg") ∧
  ref_imageSrc [("title", VStr "Alien"); ("movie_base64", VNull)]
  = Return (VStr "/images_for_movies/alien.jpg").
Proof.
  split; [reflexivity|].
  by apply (imageSrc_exact_title Ref.Number_toString Ref.toLowerCase
              read_message not_a_function _ "Alien").
Defined.

(** A title that is not in the table, and one that is, up to case. *)
Lemma imageSrc_other_title_witness :
  own_get titleMapping "Solaris" = None ∧
  inherited "Solaris" = None ∧
  ref_imageSrc [("title", VStr "Solaris")] = Return (VStr placeholder) ∧
  ref_imageSrc [("title", VStr "ALIEN")]
  = Return (VStr "/images_for_movies/alien.jpg").
Proof.
  split; [reflexivity|]. split; [reflexivity|]. split.
  - by rewrite (imageSrc_other_title Ref.Number_toString Ref.toLowerCase
                  read_message not_a_function _ "Solaris").
  - by rewrite (imageSrc_other_title Ref.Number_toString Ref.toLowerCase
                  read_message not_a_function _ "ALIEN").
Defined.

(** The older copy on a raw payload. *)
Lemma imageSrc_part_000_agrees_witness :
  imageSrc_part_000 Ref.Number_toString Ref.toLowerCase read_message
    not_a_function [("movie_base64", VStr "iVBORw0KGgo=")]
  = Return (VStr "data:image/jpeg;base64,iVBORw0KGgo=").
Proof.
  rewrite (imageSrc_part_000_agrees Ref.Number_toString Ref.toLowerCase
             read_message not_a_function).
  - reflexivity.
  - by intros s [= <-].
Defined.

(** Where the two copies differ: a data URI that is not an image. *)
Example imageSrc_other_data_uri :
  ref_imageSrc [("movie_base64", VStr "data:text/plain;base64,QQ==")]
  = Return (VStr "data:image/jpeg;base64,data:text/plain;base64,QQ==") ∧
  imageSrc_part_000 Ref.Number_toString Ref.toLowerCase read_message
    not_a_function [("movie_base64", VStr "data:text/plain;base64,QQ==")]
  = Return (VStr "data:text/plain;base64,QQ==").
Proof. by vm_compute. Qed.

(** ** The forms *)

(** Showing the register form and then the login form. *)
Lemma showForm_last_wins_witness :
  getElementById "registerForm" two_forms = Some 0 ∧
  contains "form" <$> two_forms = [true; true] ∧
  showForm "loginForm" (showForm "registerForm" two_forms)
  = showForm "loginForm" two_forms.
Proof.
  split; [reflexivity|]. split; [reflexivity|].
  apply (showForm_last_wins "registerForm" "loginForm" two_forms).
  intros t e Ht He. vm_compute in Ht. injection Ht as <-.
  vm_compute in He. injection He as <-. reflexivity.
Defined.

(** A registration the server accepts. *)
Lemma register_success_witness :
  password boris = confirmPassword boris ∧
  ref_register_call server_ok boris = Return (VObj []) ∧
  error_text (ref_register_submit server_ok boris) = "" ∧
  register_document (ref_register_submit server_ok boris)
  = showForm "loginForm" two_forms.
Proof.
  split; [reflexivity|]. split; [reflexivity|].
  destruct (register_success Ref.trim Ref.JSON_parse Ref.JSON_stringify
              page_location server_ok boris (VObj []) eq_refl eq_refl)
    as (Htext & _ & Hdoc & _).
  split; [exact Htext|exact Hdoc].
Defined.

(** A registration the server refuses. *)
Lemma register_failure_witness :
  password boris = confirmPassword boris ∧
  ref_register_call server_down boris = Throw (Error "Service Unavailable") ∧
  register_document (ref_register_submit server_down boris) = two_forms ∧
  error_text (ref_register_submit server_down boris) = "Service Unavailable".
Proof.
  split; [reflexivity|]. split; [reflexivity|].
  destruct (register_failure Ref.trim Ref.JSON_parse Ref.JSON_stringify
              page_location server_down boris (Error "Service Unavailable")
              eq_refl eq_refl)
    as (Hdoc & Htext & _).
  split; [exact Hdoc|exact Htext].
Defined.

(** Two passwords that differ, with a server that would accept and one that
    would refuse. *)
Lemma register_mismatch_offline_witness :
  password two_passwords ≠ confirmPassword two_passwords ∧
  ref_register_submit server_ok two_passwords
  = ref_register_submit server_down two_passwords.
Proof.
  assert (password two_passwords ≠ confirmPassword two_passwords) as Hne
    by discriminate.
  split; [exact Hne|].
  destruct (register_mismatch_offline Ref.trim Ref.JSON_parse
              Ref.JSON_stringify page_location page_location server_ok
              server_down two_passwords Hne)
    as (Hsame & _).
  exact Hsame.
Defined.

(** A login the server refuses. *)
Lemma login_failure_witness :
  Ref.trim (loginUsername anna) ≠ "" ∧
  loginPassword anna ≠ "" ∧
  ref_login_call server_down anna = Throw (Error "Service Unavailable") ∧
  href (ref_login_submit server_down anna) = None ∧
  loginError_text (ref_login_submit server_down anna) = "Service Unavailable".
Proof.
  assert (Ref.trim (loginUsername anna) ≠ "") as Hname by discriminate.
  assert (loginPassword anna ≠ "") as Hpass by discriminate.
  split; [exact Hname|]. split; [exact Hpass|]. split; [reflexivity|].
  destruct (login_failure Ref.Number_toString Ref.trim Ref.JSON_parse
              Ref.JSON_stringify page_location server_down anna
              (Error "Service Unavailable") Hname Hpass eq_refl)
    as (Hhref & _ & Htext & _).
  split; [exact Hhref|exact Htext].
Defined.

(** A login that is answered with a token. *)
Lemma login_stores_access_token_witness :
  ref_login_call login_token anna
  = Return (VObj [("access_token", VStr "t1")]) ∧
  login_storage (ref_login_submit login_token anna) !! "token" = Some "t1" ∧
  href (ref_login_submit login_token anna) = Some "/home.html".
Proof.
  assert (Ref.trim (loginUsername anna) ≠ "") as Hname by discriminate.
  assert (loginPassword anna ≠ "") as Hpass by discriminate.
  split; [reflexivity|].
  destruct (login_stores_access_token Ref.Number_toString Ref.trim
              Ref.JSON_parse Ref.JSON_stringify page_location login_token
              anna (VObj [("access_token", VStr "t1")]) Hname Hpass eq_refl
              eq_refl eq_refl)
    as (Htoken & Hhref & _).
  split; [exact Htoken|exact Hhref].
Defined.

(** A login without a password, with a server that would answer with a token
    and one that would refuse. *)
Lemma login_validation_offline_witness :
  loginPassword no_password = "" ∧
  ref_login_submit login_token no_password
  = ref_login_submit server_down no_password ∧
  href (ref_login_submit login_token no_password) = None.
Proof.
  split; [reflexivity|].
  destruct (login_validation_offline Ref.Number_toString Ref.trim
              Ref.JSON_parse Ref.JSON_stringify page_location page_location
              login_token server_down no_password (or_intror eq_refl))
    as (Hsame & _ & _ & _ & Hhref).
  split; [exact Hsame|exact Hhref].
Defined.

(** ** The cart and the bookmarks *)

(** A movie added to the empty cart and removed again. *)
Lemma toggle_twice_restores_witness :
  findIndex (same_id Ref.Number_toString alien) (entries Cart empty_page)
  = None ∧
  ref_issued_call server_ok one_button Cart alien empty_page
  = Some (Return (VObj [])) ∧
  ref_issued_call server_ok one_button Cart alien
    (ref_toggle server_ok one_button Cart alien empty_page).2
  = Some (Return (VObj [])) ∧
  entries Cart
    (ref_toggle server_ok one_button Cart alien
       (ref_toggle server_ok one_button Cart alien empty_page).2).2
  = [].
Proof.
  split; [reflexivity|]. split; [reflexivity|].
  assert (ref_issued_call server_ok one_button Cart alien
            (ref_toggle server_ok one_button Cart alien empty_page).2
          = Some (Return (VObj []))) as Hsecond by (by vm_compute).
  split; [exact Hsecond|].
  exact (toggle_twice_restores Ref.Number_toString Ref.JSON_parse
           Ref.JSON_stringify null_message page_location server_ok one_button
           Cart alien empty_page (VObj []) (VObj []) eq_refl eq_refl Hsecond).
Defined.

(** The token survives a toggle. *)
Lemma toggle_storage_frame_witness :
  localStorage (ref_toggle server_ok one_button Cart alien signed_in_page).2
  !! "token" = Some "t1".
Proof.
  rewrite (toggle_storage_frame Ref.Number_toString Ref.JSON_parse
             Ref.JSON_stringify null_message page_location server_ok
             one_button Cart alien signed_in_page "token");
    [reflexivity|discriminate|discriminate].
Defined.

(** ** Sorting by two keys *)

(** By title and then by price: the two films of price 20 are in the order
    of their titles. *)
Lemma sortFilms_two_keys_witness :
  cache3 !! 0 = Some [filmC; filmB; filmA] ∧
  ∃ (copy1 copy2 : nat) (h1 h2 : gmap nat (list film)) (sorted : list film),
    ref_sortFilms cache3 0 "title" = Some (copy1, h1) ∧
    ref_sortFilms h1 copy1 "price" = Some (copy2, h2) ∧
    h2 !! copy2 = Some sorted ∧
    h2 !! 0 = Some [filmC; filmB; filmA] ∧
    sorted ≡ₚ [filmC; filmB; filmA].
Proof.
  split; [reflexivity|].
  destruct (sortFilms_two_keys Ref.Number_toString Ref.toLowerCase
              Ref.parseFloat_string cache3 0 "title" "price"
              [filmC; filmB; filmA] eq_refl)
    as (copy1 & copy2 & h1 & h2 & sorted & H1 & H2 & H3 & H4 & H5 & _).
  exists copy1, copy2, h1, h2, sorted. split_and!; assumption.
Defined.

Example sort_title_then_price :
  match ref_sortFilms cache3 0 "title" with
  | Some (copy1, h1) =>
      match ref_sortFilms h1 copy1 "price" with
      | Some (copy2, h2) => h2 !! copy2
      | None => None
      end
  | None => None
  end
  = Some [filmA; filmB; filmC].
Proof. by vm_compute. Qed.

(** ** The cards *)

Example render_two_cards :
  ref_render_card film7 = Return card7 ∧
  ref_render_card film7s = Return card7s ∧
  ref_render_card_part_000 film7 = Return card7_part_000 ∧
  ref_render_card_part_000 film7s = Return card7s_part_000.
Proof. by vm_compute. Qed.

(** The array stops being rendered at [null]. *)
Lemma renderMovies_stops_witness :
  ref_renderMovies (VArr [VObj film7; VNull; VObj film7s]) [card7s]
  = (Throw (Error read_message), [card7]).
Proof.
  apply (renderMovies_stops Ref.Number_toString Ref.toLowerCase read_message
           not_a_function Ref.encodeURIComponent [VObj film7] [VObj film7s]
           VNull (Error read_message) [card7s] [card7]).
  - constructor; [|constructor]. exists film7. split; reflexivity.
  - left. reflexivity.
Defined.

(** A click on the cart button of the card of [film7] adds the movie as the
    card shows it. *)
Lemma click_adds_displayed_texts_witness :
  ref_render_card film7 = Return card7 ∧
  ref_issued_call server_ok one_button Cart (clicked_movie (card_view card7))
    empty_page
  = Some (Return (VObj [])) ∧
  cart (ref_on_click server_ok one_button
          (Click true false (Some (card_view card7))) empty_page).2
  = [alien].
Proof.
  split; [reflexivity|]. split; [reflexivity|].
  destruct (click_adds_displayed_texts Ref.Number_toString Ref.toLowerCase
              Ref.JSON_parse Ref.JSON_stringify null_message read_message
              not_a_function page_location server_ok one_button
              Ref.encodeURIComponent film7 card7 empty_page (VObj [])
              eq_refl eq_refl eq_refl)
    as (Hcart & _).
  rewrite Hcart. reflexivity.
Defined.

(** The id 7 as a number and as a string: one movie. *)
Lemma card_identity_witness :
  ref_render_card film7 = Return card7 ∧
  ref_render_card film7s = Return card7s ∧
  same_id Ref.Number_toString (clicked_movie (card_view card7))
    (clicked_movie (card_view card7s))
  = true.
Proof.
  split; [reflexivity|]. split; [reflexivity|].
  apply (card_identity Ref.Number_toString Ref.toLowerCase read_message
           not_a_function Ref.encodeURIComponent film7 film7s card7 card7s
           eq_refl eq_refl eq_refl eq_refl).
  reflexivity.
Defined.

(** Two records with an [id] and no [flim_id] in the older copy. *)
Lemma card_identity_part_000_witness :
  obj_get film7 "flim_id" = VUndefined ∧
  obj_get film7s "flim_id" = VUndefined ∧
  data_id card7_part_000 = "undefined" ∧
  same_id Ref.Number_toString (clicked_movie (card_view card7_part_000))
    (clicked_movie (card_view card7s_part_000))
  = true.
Proof.
  split; [reflexivity|]. split; [reflexivity|].
  exact (card_identity_part_000 Ref.Number_toString Ref.toLowerCase
           read_message not_a_function Ref.encodeURIComponent film7 film7s
           card7_part_000 card7s_part_000 eq_refl eq_refl eq_refl eq_refl).
Defined.

(** ** The home page *)

(** Sorting the listing by title. *)
Lemma sort_change_same_cards_witness :
  listing !! 0 = Some [film7s; film7] ∧
  ∃ (h' : gmap nat (list film)) (cards' : list card),
    ref_sort_change "title" listing 0 (Some [card7s; card7])
    = Some (h', (Return tt, Some cards')) ∧
    h' !! 0 = Some [film7s; film7] ∧
    cards' ≡ₚ [card7s; card7].
Proof.
  split; [reflexivity|].
  destruct (sort_change_same_cards Ref.Number_toString Ref.toLowerCase
              Ref.parseFloat_string null_message read_message not_a_function
              Ref.encodeURIComponent "title" listing 0 [film7s; film7]
              [card7s; card7] [card7s; card7] eq_refl)
    as (h' & sorted & cards' & Hrun & _ & Hcache & _ & _ & _ & Hperm).
  - constructor; [reflexivity|]. constructor; [reflexivity|]. constructor.
  - exists h', cards'. split_and!; assumption.
Defined.

Example sort_change_by_title :
  snd <$> ref_sort_change "title" listing 0 (Some [])
  = Some (Return tt, Some [card7; card7s]).
Proof. by vm_compute. Qed.

(** Both sections filled from a server that lists two films. *)
Lemma loadHomeMovies_success_witness :
  ref_apiRequest server_films ∅ "/films/all" no_options
  = Return (VArr [VObj film7s; VObj film7]) ∧
  ref_loadHomeMovies server_films Ref.encodeURIComponent empty_home
  = HomePage (VArr [VObj film7s; VObj film7]) (Some [card7s; card7])
      (Some [card7s; card7]) ∅ [].
Proof.
  assert (∀ path, ref_apiRequest server_films ∅ path no_options
                  = Return (VArr [VObj film7s; VObj film7])) as Hcall.
  { intros path. by vm_compute. }
  assert (Forall2 ref_rendered [VObj film7s; VObj film7] [card7s; card7])
    as Hcards.
  { constructor; [exists film7s; split; reflexivity|].
    constructor; [exists film7; split; reflexivity|]. constructor. }
  split; [apply Hcall|].
  exact (loadHomeMovies_success Ref.Number_toString Ref.toLowerCase
           Ref.JSON_parse Ref.JSON_stringify read_message not_a_function
           page_location server_films Ref.encodeURIComponent empty_home [] []
           _ _ _ _ eq_refl eq_refl (Hcall _) Hcards (Hcall _) Hcards).
Defined.

(** A listing that is answered with an empty body. *)
Lemma loadHomeMovies_bad_response_witness :
  ref_apiRequest server_ok ∅ "/films/all" no_options = Return (VObj []) ∧
  ∃ e, ref_loadHomeMovies server_ok Ref.encodeURIComponent
         (HomePage (VArr []) (Some [card7]) (Some [card7s]) ∅ [])
       = HomePage (VObj []) (Some []) (Some [card7s]) ∅ [e].
Proof.
  split; [reflexivity|].
  apply (loadHomeMovies_bad_response Ref.Number_toString Ref.toLowerCase
           Ref.JSON_parse Ref.JSON_stringify read_message not_a_function
           page_location server_ok Ref.encodeURIComponent
           (HomePage (VArr []) (Some [card7]) (Some [card7s]) ∅ [])
           [card7] [card7s] (VObj []) eq_refl eq_refl eq_refl).
  intros items. discriminate.
Defined.
